(** * reeditor: the save-file editor's form encoder and HTTP handlers

    A shallow embedding of [main.go]: the recursive encoder
    [renderEditableForm], the three HTTP handlers and the route table, with
    the properties the specification states about them. *)

From Stdlib Require Import String Ascii List ZArith NArith Lia Bool Arith.
From Stdlib Require Import Decimal DecimalString DecimalNat DecimalN DecimalZ.
From Stdlib Require Import Permutation Sorted Mergesort Orders.
Import ListNotations.

Set Warnings "-register-all".

Open Scope list_scope.
Open Scope string_scope.

(** ** Strings of the Go runtime

    A Go string is a sequence of bytes; [string] (a list of [ascii], one per
    byte) is that sequence.  The double quote is written by its code, 34. *)

Definition dquote : ascii := "034"%char.

(** [quoted s] is [s] between two double quotes, as the templates of the
    encoder write attribute values. *)
Definition quoted (s : string) : string :=
  String dquote s ++ String dquote "".

(** [strings.Contains(s, sub)]. *)
Fixpoint contains (sub s : string) : bool :=
  prefix sub s ||
  match s with
  | EmptyString => false
  | String _ s' => contains sub s'
  end.

(** The bytes of a string, for statements about single characters. *)
Definition bytes (s : string) : list ascii := list_ascii_of_string s.

(** *** [html.EscapeString]

    The standard replacer of package [html]: five bytes are replaced, every
    other byte is copied. *)

Definition escapeByte (c : ascii) : string :=
  if Ascii.eqb c "&" then "&amp;"
  else if Ascii.eqb c "'" then "&#39;"
  else if Ascii.eqb c "<" then "&lt;"
  else if Ascii.eqb c ">" then "&gt;"
  else if Ascii.eqb c dquote then "&#34;"
  else String c "".

Fixpoint EscapeString (s : string) : string :=
  match s with
  | EmptyString => ""
  | String c s' => escapeByte c ++ EscapeString s'
  end.

(** *** Decimal text of integers: the verbs [%d] and [%v] on integer kinds *)

Definition fmtN (n : N) : string := NilZero.string_of_uint (N.to_uint n).
Definition fmtNat (n : nat) : string := fmtN (N.of_nat n).
Definition fmtZ (z : Z) : string := NilZero.string_of_int (Z.to_int z).

(** ** Dynamic values: what an [interface{}] can hold

    The encoder switches on the runtime type of its argument.  The kinds the
    switch names are kept apart, so that the embedding can follow its cases
    one by one. *)

Inductive IntKind := KInt | KInt64 | KInt32 | KInt16 | KInt8.
Inductive UintKind := KUint | KUint8 | KUint16 | KUint32 | KUint64.
Inductive FloatKind := KFloat64 | KFloat32.

Section Encoder.

(** Floating-point numbers and the text [fmt] prints for them under [%v]
    belong to the Go runtime, not to this program: both are parameters. *)
Variable float : Type.
Variable fmtFloat : FloatKind -> float -> string.

(** A value without children.  An integer of any kind is the number it
    holds: the encoder only prints it.  [SOther] stands for every runtime
    shape the switch does not name (structs, pointers, typed maps and slices,
    ...); it carries the text [%v] prints for it. *)
Inductive scalar :=
| SString (s : string)
| SInt (k : IntKind) (z : Z)
| SUint (k : UintKind) (n : N)
| SFloat (k : FloatKind) (f : float)
| SBool (b : bool)
| SNil
| SOther (shown : string).

(** A [map[interface{}]interface{}] is the list of its entries in the order
    [range] visits them.  The map itself is unordered, and Go does not fix
    the order of a [range] over it: two lists that are permutations of one
    another are the same map, visited in two orders.  Keys are comparable
    values, hence scalars. *)
Inductive value :=
| VScalar (a : scalar)
| VMap (entries : list (scalar * value))
| VSlice (items : list value).

(** [fmt.Sprintf("%v", a)] on a scalar. *)
Definition sprintv (a : scalar) : string :=
  match a with
  | SString s => s
  | SInt _ z => fmtZ z
  | SUint _ n => fmtN n
  | SFloat k f => fmtFloat k f
  | SBool b => if b then "true" else "false"
  | SNil => "<nil>"
  | SOther shown => shown
  end.

(** ** The encoder *)

(** The templates of the [Sprintf] calls, one per case of the switch. *)

Definition mapItem (label body : string) : string :=
  "<li><label>" ++ label ++ ":</label> " ++ body ++ "</li>".

Definition sliceItem (body : string) : string :=
  "<li>" ++ body ++ "</li>".

Definition textInput (name val : string) : string :=
  "<input type=" ++ quoted "text" ++ " name=" ++ quoted name ++
  " value=" ++ quoted val ++ " size=" ++ quoted "100" ++ ">".

Definition numberInput (name val : string) : string :=
  "<input type=" ++ quoted "number" ++ " name=" ++ quoted name ++
  " value=" ++ quoted val ++ ">".

Definition floatInput (name val : string) : string :=
  "<input type=" ++ quoted "number" ++ " step=" ++ quoted "any" ++
  " name=" ++ quoted name ++ " value=" ++ quoted val ++ ">".

Definition boolInput (name1 name2 checked : string) : string :=
  "<input type=" ++ quoted "hidden" ++ " name=" ++ quoted name1 ++
  " value=" ++ quoted "false" ++ ">" ++
  "<input type=" ++ quoted "checkbox" ++ " name=" ++ quoted name2 ++
  " value=" ++ quoted "true" ++ " " ++ checked ++ ">".

Definition nilMarker : string := "<em>nil</em>".

Definition codeDisplay (shown : string) : string :=
  "<code>" ++ shown ++ "</code>".

(** The prefixes of the children. *)
Definition keyPrefix (prefix keyStr : string) : string :=
  prefix ++ "." ++ keyStr.

Definition indexPrefix (prefix : string) (i : nat) : string :=
  prefix ++ "[" ++ fmtNat i ++ "]".

(** [renderEditableForm data prefix].  The two [range] loops append to
    [formBody] entry by entry; the loop over a slice carries its index. *)
Fixpoint renderEditableForm (data : value) (prefix : string) : string :=
  let formBody := "" in
  match data with
  | VMap v =>
      let formBody := formBody ++ "<ul>" in
      let formBody :=
        (fix range (rest : list (scalar * value)) (formBody : string) : string :=
           match rest with
           | [] => formBody
           | (key, val) :: rest' =>
               let keyStr := sprintv key in
               let newPrefix := keyPrefix prefix keyStr in
               range rest'
                 (formBody ++
                  mapItem (EscapeString keyStr) (renderEditableForm val newPrefix))
           end) v formBody in
      formBody ++ "</ul>"
  | VSlice v =>
      let formBody := formBody ++ "<ol>" in
      let formBody :=
        (fix range (rest : list value) (i : nat) (formBody : string) : string :=
           match rest with
           | [] => formBody
           | val :: rest' =>
               let newPrefix := indexPrefix prefix i in
               range rest' (S i)
                 (formBody ++ sliceItem (renderEditableForm val newPrefix))
           end) v 0 formBody in
      formBody ++ "</ol>"
  | VScalar (SString v) =>
      formBody ++ textInput (EscapeString prefix) (EscapeString v)
  | VScalar (SInt _ v) =>
      formBody ++ numberInput (EscapeString prefix) (fmtZ v)
  | VScalar (SFloat k v) =>
      formBody ++ floatInput (EscapeString prefix) (fmtFloat k v)
  | VScalar (SBool v) =>
      let checked := if v then "checked" else "" in
      formBody ++ boolInput (EscapeString prefix) (EscapeString prefix) checked
  | VScalar SNil =>
      formBody ++ nilMarker
  | VScalar v =>
      formBody ++ codeDisplay (EscapeString (sprintv v))
  end.

(** *** The path of every leaf

    [leafPaths data prefix] lists the [prefix] with which the encoder is
    called on each leaf of [data], in the order of the calls: the field path
    the encoder assigns to that leaf.  The recursion is the encoder's own. *)
Fixpoint leafPaths (data : value) (prefix : string) : list string :=
  match data with
  | VMap v =>
      (fix range (rest : list (scalar * value)) : list string :=
         match rest with
         | [] => []
         | (key, val) :: rest' =>
             let keyStr := sprintv key in
             let newPrefix := keyPrefix prefix keyStr in
             (leafPaths val newPrefix ++ range rest')%list
         end) v
  | VSlice v =>
      (fix range (rest : list value) (i : nat) : list string :=
         match rest with
         | [] => []
         | val :: rest' =>
             let newPrefix := indexPrefix prefix i in
             (leafPaths val newPrefix ++ range rest' (S i))%list
         end) v 0
  | VScalar _ => [prefix]
  end.

(** [leaves data prefix] lists the calls of the encoder on the leaves of
    [data]: the prefix and the scalar of each call, in order. *)
Fixpoint leaves (data : value) (prefix : string) : list (string * scalar) :=
  match data with
  | VMap v =>
      (fix range (rest : list (scalar * value)) : list (string * scalar) :=
         match rest with
         | [] => []
         | (key, val) :: rest' =>
             let keyStr := sprintv key in
             let newPrefix := keyPrefix prefix keyStr in
             (leaves val newPrefix ++ range rest')%list
         end) v
  | VSlice v =>
      (fix range (rest : list value) (i : nat) : list (string * scalar) :=
         match rest with
         | [] => []
         | val :: rest' =>
             let newPrefix := indexPrefix prefix i in
             (leaves val newPrefix ++ range rest' (S i))%list
         end) v 0
  | VScalar a => [(prefix, a)]
  end.


(** *** Trees whose keys can serve in a path

    A key text can be read back from a path when it holds neither of the two
    characters that start a path step. *)
Definition isSeparator (c : ascii) : bool :=
  Ascii.eqb c "." || Ascii.eqb c "[".

Definition separatorFree (s : string) : bool :=
  forallb (fun c => negb (isSeparator c)) (bytes s).

Fixpoint distinct (l : list string) : bool :=
  match l with
  | [] => true
  | x :: l' => negb (existsb (String.eqb x) l') && distinct l'
  end.

(** [pathSafe data]: at every map of [data] the texts of the keys are
    pairwise different and free of separators. *)
Fixpoint pathSafe (data : value) : bool :=
  match data with
  | VMap v =>
      distinct (map (fun e => sprintv (fst e)) v) &&
      forallb (fun e => separatorFree (sprintv (fst e))) v &&
      forallb (fun e => pathSafe (snd e)) v
  | VSlice v => forallb pathSafe v
  | VScalar _ => true
  end.

(** *** Markup delimiters

    The characters that open or close a tag or an attribute value. *)
Definition isDelimiter (c : ascii) : bool :=
  Ascii.eqb c "<" || Ascii.eqb c ">" || Ascii.eqb c dquote || Ascii.eqb c "'".

(** The delimiters of a string, in order. *)
Definition delimiters (s : string) : list ascii :=
  filter isDelimiter (bytes s).

(** A string without delimiters. *)
Definition plain (s : string) : bool :=
  forallb (fun c => negb (isDelimiter c)) (bytes s).

(** [blank data] is [data] with every text the user controls emptied: the
    keys, the strings and the texts of the shapes the switch does not name.
    Numbers, booleans and nil stay. *)
Fixpoint blank (data : value) : value :=
  match data with
  | VMap v => VMap (map (fun e => (SString "", blank (snd e))) v)
  | VSlice v => VSlice (map blank v)
  | VScalar (SString _) => VScalar (SString "")
  | VScalar (SOther _) => VScalar (SOther "")
  | VScalar a => VScalar a
  end.

End Encoder.

Arguments SString {float}.
Arguments SInt {float}.
Arguments SUint {float}.
Arguments SFloat {float}.
Arguments SBool {float}.
Arguments SNil {float}.
Arguments SOther {float}.
Arguments VScalar {float}.
Arguments VMap {float}.
Arguments VSlice {float}.
Arguments sprintv {float}.
Arguments renderEditableForm {float}.
Arguments leafPaths {float}.
Arguments leaves {float}.
Arguments pathSafe {float}.
Arguments blank {float}.

(** ** The HTTP handlers

    A handler is a function from the request to the list of the effects it
    has, in order: what it prints, what it writes to the response, and the
    calls it makes to the packages that read the upload. *)

Definition nl : string := String "010"%char "".
Definition tab : string := String "009"%char "".

Fixpoint tabs (n : nat) : string :=
  match n with
  | O => ""
  | S n' => tab ++ tabs n'
  end.

(** One line of a page template: its indentation, its text, a line feed. *)
Definition line (indent : nat) (text : string) : string :=
  tabs indent ++ text ++ nl.

Definition MethodPost : string := "POST".
Definition MethodConnect : string := "CONNECT".
Definition StatusOK : nat := 200.
Definition StatusBadRequest : nat := 400.
Definition StatusNotFound : nat := 404.
Definition StatusMethodNotAllowed : nat := 405.
Definition StatusInternalServerError : nat := 500.

(** [URLPath] is the path of the request URL as the multiplexer reads it,
    before any cleaning. *)
Record Request := {
  Method : string;
  URLPath : string
}.

Inductive call :=
| CFormFile (name : string)
| CReadAll
| CNewReader
| COpen (name : string)
| CLoad
| CCloseFile
| CCloseReader.

Inductive effect :=
| Stdout (text : string)
| SetHeader (key val : string)
| WriteHeader (code : nat)
| Write (text : string)
| Call (c : call).

(** [http.Error(w, error, code)]. *)
Definition httpError (error : string) (code : nat) : list effect :=
  [ SetHeader "Content-Type" "text/plain; charset=utf-8";
    SetHeader "X-Content-Type-Options" "nosniff";
    WriteHeader code;
    Write (error ++ nl) ].

(** *** The multiplexer's path cleaning

    [cleanPath] of package [http]: the path gets a leading slash, its empty
    and [.] elements are dropped, a [..] element drops the element before
    it, and a final slash is kept. *)

(** The elements of a path between its slashes, [cur] being the element
    read so far. *)
Fixpoint splitSlash (s : string) (cur : string) : list string :=
  match s with
  | EmptyString => [cur]
  | String c s' =>
      if Ascii.eqb c "/" then cur :: splitSlash s' ""
      else splitSlash s' (cur ++ String c "")
  end.

(** One element read by [path.Clean] on a rooted path; [kept] holds the
    elements kept so far, the last one first. *)
Definition cleanStep (kept : list string) (element : string) : list string :=
  if (element =? "") || (element =? ".") then kept
  else if element =? ".." then tl kept
  else element :: kept.

(** [path.Clean] on a path that starts with a slash. *)
Definition cleanRooted (p : string) : string :=
  match p with
  | EmptyString => "/"
  | String _ rest =>
      "/" ++ String.concat "/" (List.rev (fold_left cleanStep (splitSlash rest "") []))
  end.

Fixpoint endsWithSlash (p : string) : bool :=
  match p with
  | EmptyString => false
  | String c EmptyString => Ascii.eqb c "/"
  | String _ p' => endsWithSlash p'
  end.

Definition cleanPath (p : string) : string :=
  if p =? "" then "/"
  else
    let p := if String.prefix "/" p then p else "/" ++ p in
    let np := cleanRooted p in
    if endsWithSlash p && negb (np =? "/") then np ++ "/" else np.

(** The answer of the library's redirect handler to a request: its status
    code, the headers it sets and the body it writes, for the target of the
    redirect. *)
Record Redirection := {
  redirectCode : nat;
  redirectHeaders : string -> Request -> list (string * string);
  redirectBody : string -> Request -> string
}.

Definition RedirectHandler (lib : Redirection) (url : string) (r : Request)
  : list effect :=
  map (fun kv => SetHeader (fst kv) (snd kv)) (redirectHeaders lib url r) ++
  [ WriteHeader (redirectCode lib); Write (redirectBody lib url r) ].

(** What the client receives.  The status is the code of the first
    [WriteHeader]; a [Write] that comes first, or a handler that returns
    without writing, sends 200. *)
Fixpoint statusOf (trace : list effect) : nat :=
  match trace with
  | [] => StatusOK
  | WriteHeader code :: _ => code
  | Write _ :: _ => StatusOK
  | _ :: trace' => statusOf trace'
  end.

Fixpoint bodyOf (trace : list effect) : string :=
  match trace with
  | [] => ""
  | Write text :: trace' => text ++ bodyOf trace'
  | _ :: trace' => bodyOf trace'
  end.

Fixpoint stdoutOf (trace : list effect) : string :=
  match trace with
  | [] => ""
  | Stdout text :: trace' => text ++ stdoutOf trace'
  | _ :: trace' => stdoutOf trace'
  end.

Fixpoint headerOf (key : string) (trace : list effect) : option string :=
  match trace with
  | [] => None
  | SetHeader k v :: trace' =>
      match headerOf key trace' with
      | Some v' => Some v'
      | None => if String.eqb k key then Some v else None
      end
  | _ :: trace' => headerOf key trace'
  end.

Definition callsOf (trace : list effect) : list call :=
  flat_map (fun e => match e with Call c => [c] | _ => [] end) trace.

(** [sort.Strings]: the strings in increasing byte-wise order. *)
Module StringOrder <: TotalLeBool.

Definition t := string.

Definition leb (x y : string) : bool := String.leb x y.

Lemma leb_total (x y : string) : leb x y = true \/ leb y x = true.
Proof. apply String.leb_total. Qed.

End StringOrder.

Module StringSort := Sort StringOrder.

Definition sortStrings (keys : list string) : list string :=
  StringSort.sort keys.

(** [%v] on a [[]string]: the elements between brackets, a space apart. *)
Fixpoint joinSpace (values : list string) : string :=
  match values with
  | [] => ""
  | [x] => x
  | x :: values' => x ++ " " ++ joinSpace values'
  end.

Definition fmtStrings (values : list string) : string :=
  "[" ++ joinSpace values ++ "]".

(** [m[key]] on a [map[string][]string]: nil when the key is absent. *)
Fixpoint valuesOf (m : list (string * list string)) (key : string) : list string :=
  match m with
  | [] => []
  | (k, values) :: m' => if String.eqb k key then values else valuesOf m' key
  end.

Definition rootPage : string :=
  nl ++
  line 3 "<!DOCTYPE html>" ++
  line 3 "<html>" ++
  line 3 "<head>" ++
  line 4 "<title>Ren'Py Save Editor</title>" ++
  line 3 "</head>" ++
  line 3 "<body>" ++
  line 4 "<h2>Upload Save File</h2>" ++
  line 4 ("<form action=" ++ quoted "/upload" ++ " method=" ++ quoted "post" ++
          " enctype=" ++ quoted "multipart/form-data" ++ ">") ++
  line 5 ("<input type=" ++ quoted "file" ++ " name=" ++ quoted "savefile" ++ ">") ++
  line 5 ("<input type=" ++ quoted "submit" ++ " value=" ++ quoted "Upload" ++ ">") ++
  line 4 "</form>" ++
  line 3 "</body>" ++
  line 3 "</html>" ++
  tabs 2.

Definition editPage (form : string) : string :=
  nl ++
  line 2 "<!DOCTYPE html>" ++
  line 2 "<html>" ++
  line 2 "<head>" ++
  line 3 "<title>Ren'Py Save Editor</title>" ++
  line 2 "</head>" ++
  line 2 "<body>" ++
  line 3 "<h2>Edit Save File Data</h2>" ++
  line 3 ("<form action=" ++ quoted "/save" ++ " method=" ++ quoted "post" ++ ">") ++
  line 4 form ++
  line 4 "<br>" ++
  line 4 ("<input type=" ++ quoted "submit" ++ " value=" ++ quoted "Save Changes" ++ ">") ++
  line 3 "</form>" ++
  line 2 "</body>" ++
  line 2 "</html>" ++
  tabs 1.

Definition saveAck : string :=
  "Changes received. Rebuilding the save file is the next step.".

Section Server.

Variable float : Type.
Variable fmtFloat : FloatKind -> float -> string.

(** The packages the handlers call: multipart parsing, the zip reader and
    the unpickler.  Each returns [None] where the Go call returns an error. *)
Variables File ZipFile Reader : Type.
Variable FormFile : Request -> string -> option File.
Variable ReadAll : File -> option string.
Variable NewReader : string -> option (list ZipFile).
Variable Name : ZipFile -> string.
Variable Open : ZipFile -> option Reader.
Variable Load : Reader -> option (value float).

(** [r.ParseForm()]: on success the entries of [r.PostForm], in the order
    [range] visits them. *)
Variable ParseForm : Request -> option (list (string * list string)).

Definition uploadHandler (r : Request) : list effect :=
  if negb (Method r =? MethodPost) then
    httpError "Only POST method is allowed" StatusMethodNotAllowed
  else
    Call (CFormFile "savefile") ::
    match FormFile r "savefile" with
    | None => httpError "Error retrieving the file" StatusBadRequest
    | Some file =>
      (Call CReadAll ::
       match ReadAll file with
       | None => httpError "Error reading uploaded file" StatusInternalServerError
       | Some fileBytes =>
         Call CNewReader ::
         match NewReader fileBytes with
         | None => httpError "Error reading zip file" StatusInternalServerError
         | Some zipReader =>
           match find (fun f => Name f =? "log") zipReader with
           | None => httpError "log file not found in save archive" StatusBadRequest
           | Some logFile =>
             Call (COpen (Name logFile)) ::
             match Open logFile with
             | None => httpError "Error opening log file" StatusInternalServerError
             | Some logFileReader =>
               (Call CLoad ::
                match Load logFileReader with
                | None => httpError "Error unpickling log file" StatusInternalServerError
                | Some data =>
                  [ SetHeader "Content-Type" "text/html; charset=utf-8";
                    Write (editPage (renderEditableForm fmtFloat data "root")) ]
                end) ++ [Call CCloseReader]
             end
           end
         end
       end) ++ [Call CCloseFile]
    end.

Definition saveHandler (r : Request) : list effect :=
  if negb (Method r =? MethodPost) then
    httpError "Only POST method is allowed" StatusMethodNotAllowed
  else
    match ParseForm r with
    | None => httpError "Error parsing form" StatusInternalServerError
    | Some postForm =>
      Stdout ("Received form data:" ++ nl) ::
      let keys := fold_left (fun keys e => (keys ++ [fst e])%list) postForm [] in
      let keys := sortStrings keys in
      map (fun key =>
             let values := valuesOf postForm key in
             Stdout ("  " ++ key ++ ": " ++ fmtStrings values ++ nl)) keys ++
      [ Write saveAck ]
    end.

Definition rootHandler (r : Request) : list effect :=
  [ SetHeader "Content-Type" "text/html; charset=utf-8";
    Write rootPage ].

(** *** The route table

    The answer of the multiplexer's redirect handler belongs to the
    library: it is a parameter. *)
Variable redirection : Redirection.

(** [http.HandleFunc] registers a pattern with its handler.  A pattern that
    does not end in a slash matches the one path equal to it; a pattern that
    ends in a slash matches every path it is a prefix of, and the longest
    such pattern wins. *)
Definition Handler : Type := Request -> list effect.

Definition routes : list (string * Handler) :=
  [ ("/upload", uploadHandler);
    ("/save", saveHandler);
    ("/", rootHandler) ].

Fixpoint endsInSlash (pattern : string) : bool :=
  match pattern with
  | EmptyString => false
  | String c EmptyString => Ascii.eqb c "/"
  | String _ pattern' => endsInSlash pattern'
  end.

Fixpoint longestPrefix (table : list (string * Handler)) (path : string)
    (best : option (string * Handler)) : option (string * Handler) :=
  match table with
  | [] => best
  | (pattern, h) :: table' =>
      let better :=
        endsInSlash pattern && prefix pattern path &&
        match best with
        | None => true
        | Some (p, _) => Nat.ltb (String.length p) (String.length pattern)
        end in
      longestPrefix table' path (if better then Some (pattern, h) else best)
  end.

Definition muxMatch (table : list (string * Handler)) (path : string) : option Handler :=
  match find (fun e => fst e =? path) table with
  | Some (_, h) => Some h
  | None => option_map snd (longestPrefix table path None)
  end.

Definition NotFound (r : Request) : list effect :=
  httpError "404 page not found" StatusNotFound.

(** The handler of a path: the handler of the pattern that matches it, or
    the not-found answer. *)
Definition dispatch (path : string) (r : Request) : list effect :=
  match muxMatch routes path with
  | Some h => h r
  | None => NotFound r
  end.

(** What [http.ListenAndServe(":8080", nil)] does with a request: the
    default multiplexer cleans the path of every request but a CONNECT; a
    path that cleaning changes is answered with a redirect to the cleaned
    path and no handler runs; otherwise the handler of the path runs. *)
Definition serve (r : Request) : list effect :=
  if Method r =? MethodConnect then dispatch (URLPath r) r
  else
    let path := cleanPath (URLPath r) in
    if negb (path =? URLPath r) then RedirectHandler redirection path r
    else dispatch path r.

End Server.

(** ** The loops of the encoder, entry by entry

    What the two [range] loops of [renderEditableForm] append, as lists: one
    item per entry of a map, one item per element of a slice with its
    index. *)

Definition indexed {A : Type} (start : nat) (l : list A) : list (nat * A) :=
  combine (seq start (length l)) l.

Definition join (parts : list string) : string := String.concat "" parts.

Section Items.

Context {float : Type} (fmtFloat : FloatKind -> float -> string).

Definition mapItems (prefix : string) (v : list (scalar float * value float))
  : list string :=
  map (fun e =>
         mapItem (EscapeString (sprintv fmtFloat (fst e)))
           (renderEditableForm fmtFloat (snd e)
              (keyPrefix prefix (sprintv fmtFloat (fst e))))) v.

Definition sliceItems (prefix : string) (start : nat) (v : list (value float))
  : list string :=
  map (fun iv =>
         sliceItem (renderEditableForm fmtFloat (snd iv)
                      (indexPrefix prefix (fst iv)))) (indexed start v).

End Items.

(** ** The encoder on values with references

    In Go a map and a slice held in an [interface{}] refer to storage that
    other values may share, and that may hold the map or the slice itself.
    Here a value is a scalar or the address of a map or of a slice, and the
    store gives the entries behind every address.  The recursion of
    [renderEditableForm] on such a value need not end: it is followed for a
    bounded number of nested calls, [None] meaning that the bound was
    reached before the call returned. *)

Section EncoderOnReferences.

Variable float : Type.
Variable fmtFloat : FloatKind -> float -> string.

Inductive dyn :=
| DScalar (a : scalar float)
| DMap (address : nat)
| DSlice (address : nat).

Record store := {
  mapAt : nat -> list (scalar float * dyn);
  sliceAt : nat -> list dyn
}.

(** The loop over the entries of a map, [rec] being the recursive call. *)
Fixpoint rangeMapOn (rec : dyn -> string -> option string) (prefix : string)
    (rest : list (scalar float * dyn)) (formBody : string) : option string :=
  match rest with
  | [] => Some formBody
  | (key, val) :: rest' =>
      let keyStr := sprintv fmtFloat key in
      let newPrefix := keyPrefix prefix keyStr in
      match rec val newPrefix with
      | None => None
      | Some body =>
          rangeMapOn rec prefix rest'
            (formBody ++ mapItem (EscapeString keyStr) body)
      end
  end.

(** The loop over the elements of a slice, with its index. *)
Fixpoint rangeSliceOn (rec : dyn -> string -> option string) (prefix : string)
    (rest : list dyn) (i : nat) (formBody : string) : option string :=
  match rest with
  | [] => Some formBody
  | val :: rest' =>
      let newPrefix := indexPrefix prefix i in
      match rec val newPrefix with
      | None => None
      | Some body =>
          rangeSliceOn rec prefix rest' (S i) (formBody ++ sliceItem body)
      end
  end.

(** [renderOn h depth data prefix]: the call [renderEditableForm(data,
    prefix)] in the store [h], with at most [depth] nested calls. *)
Fixpoint renderOn (h : store) (depth : nat) (data : dyn) (prefix : string)
  : option string :=
  match depth with
  | O => None
  | S depth' =>
      let formBody := "" in
      match data with
      | DMap address =>
          let formBody := formBody ++ "<ul>" in
          match rangeMapOn (renderOn h depth') prefix (mapAt h address) formBody with
          | None => None
          | Some formBody => Some (formBody ++ "</ul>")
          end
      | DSlice address =>
          let formBody := formBody ++ "<ol>" in
          match rangeSliceOn (renderOn h depth') prefix (sliceAt h address) 0
                  formBody with
          | None => None
          | Some formBody => Some (formBody ++ "</ol>")
          end
      | DScalar (SString v) =>
          Some (formBody ++ textInput (EscapeString prefix) (EscapeString v))
      | DScalar (SInt _ v) =>
          Some (formBody ++ numberInput (EscapeString prefix) (fmtZ v))
      | DScalar (SFloat k v) =>
          Some (formBody ++ floatInput (EscapeString prefix) (fmtFloat k v))
      | DScalar (SBool v) =>
          let checked := if v then "checked" else "" in
          Some (formBody ++
                boolInput (EscapeString prefix) (EscapeString prefix) checked)
      | DScalar SNil =>
          Some (formBody ++ nilMarker)
      | DScalar v =>
          Some (formBody ++ codeDisplay (EscapeString (sprintv fmtFloat v)))
      end
  end.

(** [child h d' d]: [d'] is an element of the slice, or a value of the map,
    that [d] refers to. *)
Inductive child (h : store) : dyn -> dyn -> Prop :=
| child_of_map (address : nat) (key : scalar float) (val : dyn) :
    In (key, val) (mapAt h address) -> child h val (DMap address)
| child_of_slice (address : nat) (val : dyn) :
    In val (sliceAt h address) -> child h val (DSlice address).

(** [isTree h data t]: what [data] refers to in [h], followed through every
    address, is the finite tree [t]. *)
Inductive isTree (h : store) : dyn -> value float -> Prop :=
| isTree_scalar (a : scalar float) :
    isTree h (DScalar a) (VScalar a)
| isTree_map (address : nat) (v : list (scalar float * value float)) :
    Forall2 (fun e e' => fst e = fst e' /\ isTree h (snd e) (snd e'))
      (mapAt h address) v ->
    isTree h (DMap address) (VMap v)
| isTree_slice (address : nat) (v : list (value float)) :
    Forall2 (isTree h) (sliceAt h address) v ->
    isTree h (DSlice address) (VSlice v).

End EncoderOnReferences.

Arguments Build_store {float}.
Arguments DScalar {float}.
Arguments DMap {float}.
Arguments DSlice {float}.
Arguments mapAt {float}.
Arguments sliceAt {float}.
Arguments renderOn {float}.
Arguments rangeMapOn {float}.
Arguments rangeSliceOn {float}.
Arguments child {float}.
Arguments isTree {float}.


(** ** Character classes used in the statements *)

Definition isDigit (c : ascii) : bool :=
  existsb (Ascii.eqb c) (bytes "0123456789").

(** [noneOf sep s]: no byte of [s] is in the class [sep]. *)
Definition noneOf (sep : ascii -> bool) (s : string) : bool :=
  forallb (fun c => negb (sep c)) (bytes s).

(** [startsIn sep s]: [s] is empty or starts with a byte of the class. *)
Definition startsIn (sep : ascii -> bool) (s : string) : bool :=
  match s with
  | EmptyString => true
  | String c _ => sep c
  end.

(** [followsLt ok s]: every [<] of [s] is followed by a byte of the class
    [ok]. *)
Fixpoint followsLt (ok : ascii -> bool) (s : string) : bool :=
  match s with
  | EmptyString => true
  | String c s' =>
      (if Ascii.eqb c "<"
       then match s' with
            | EmptyString => false
            | String d _ => ok d
            end
       else true) && followsLt ok s'
  end.

(** The bytes that follow [<] in the templates of the encoder. *)
Definition tagStart (c : ascii) : bool :=
  existsb (Ascii.eqb c) (bytes "ulo/iec").

(** The shapes that reach the [default] case of the switch. *)
Definition unnamed {float : Type} (a : scalar float) : bool :=
  match a with
  | SUint _ _ | SOther _ => true
  | _ => false
  end.

(** ** Vocabulary of the further properties *)

(** The scalars for which the switch writes an input element. *)
Definition editable {float : Type} (a : scalar float) : bool :=
  match a with
  | SString _ | SInt _ _ | SFloat _ _ | SBool _ => true
  | _ => false
  end.

(** The same tree in another run: at every map, [range] may visit the
    entries in another order; the keys and the slices stay as they are. *)
Inductive reordered {float : Type} : value float -> value float -> Prop :=
| reordered_scalar (a : scalar float) :
    reordered (VScalar a) (VScalar a)
| reordered_map (v v' w : list (scalar float * value float)) :
    Forall2 (fun e e' => fst e = fst e' /\ reordered (snd e) (snd e')) v v' ->
    Permutation v' w ->
    reordered (VMap v) (VMap w)
| reordered_slice (v v' : list (value float)) :
    Forall2 reordered v v' ->
    reordered (VSlice v) (VSlice v').

(** Reading the delimiters of a markup string: outside a tag only [<] may
    come, inside a tag [>] closes it and a double quote opens an attribute
    value, and inside a value only the closing double quote may come. *)
Inductive tagState := Outside | InTag | InValue.

Definition tagStep (st : tagState) (c : ascii) : option tagState :=
  match st with
  | Outside => if Ascii.eqb c "<" then Some InTag else None
  | InTag =>
      if Ascii.eqb c ">" then Some Outside
      else if Ascii.eqb c dquote then Some InValue
      else None
  | InValue => if Ascii.eqb c dquote then Some InTag else None
  end.

Fixpoint tagRun (st : tagState) (l : list ascii) : option tagState :=
  match l with
  | [] => Some st
  | c :: l' =>
      match tagStep st c with
      | Some st' => tagRun st' l'
      | None => None
      end
  end.

(** [wellTagged s]: the delimiters of [s] form complete tags with closed
    attribute values, and no delimiter stands outside a tag or inside a
    value. *)
Definition wellTagged (s : string) : bool :=
  match tagRun Outside (delimiters s) with
  | Some Outside => true
  | _ => false
  end.

(** The call sequences of the upload handler, from the shortest. *)
Definition uploadProtocol : list (list call) :=
  [ [];
    [CFormFile "savefile"];
    [CFormFile "savefile"; CReadAll; CCloseFile];
    [CFormFile "savefile"; CReadAll; CNewReader; CCloseFile];
    [CFormFile "savefile"; CReadAll; CNewReader; COpen "log"; CCloseFile];
    [CFormFile "savefile"; CReadAll; CNewReader; COpen "log"; CLoad;
     CCloseReader; CCloseFile] ].



(** One line of the save handler's log. *)
Definition logLine (key : string) (values : list string) : string :=
  "  " ++ key ++ ": " ++ fmtStrings values ++ nl.


(** ** Values, requests and collaborators of the examples *)

(** Floats that hold whole numbers, which [%v] prints as integers. *)
Definition fmtWhole (k : FloatKind) (f : Z) : string := fmtZ f.

(** The tree of the specification's scenario: gold 100, two flags. *)
Definition scenario : value Z :=
  VMap [ (SString "gold", VScalar (SInt KInt 100));
         (SString "flags", VSlice [VScalar (SBool true); VScalar (SBool false)]) ].

(** A map with the integer key 1 and the string key [1]. *)
Definition collidingKeys : value Z :=
  VMap [ (SInt KInt 1, VScalar (SString "a"));
         (SString "1", VScalar (SString "b")) ].

(** A map with a key that holds a dot, beside a nested map. *)
Definition dottedKey : value Z :=
  VMap [ (SString "a.b", VScalar (SInt KInt 1));
         (SString "a", VMap [ (SString "b", VScalar (SInt KInt 2)) ]) ].

(** The entries of one map, in two orders of visit. *)
Definition twoEntries : list (scalar Z * value Z) :=
  [ (SString "a", VScalar (SInt KInt 1)); (SString "b", VScalar (SInt KInt 2)) ].

Definition twoEntriesSwapped : list (scalar Z * value Z) :=
  [ (SString "b", VScalar (SInt KInt 2)); (SString "a", VScalar (SInt KInt 1)) ].

(** A tree whose texts try to inject markup. *)
Definition hostile : value Z :=
  VMap [ (SString "<script>",
          VSlice [ VScalar (SString "<script>alert(1)</script>");
                   VScalar (SOther "<script>");
                   VScalar (SFloat KFloat64 3%Z) ]) ].

(** An upload whose archive holds the entry [log], unpickled to the
    scenario's tree. *)
Definition exFormFile (r : Request) (name : string) : option string :=
  if name =? "savefile" then Some "archive" else None.

Definition exReadAll (file : string) : option string := Some file.

Definition exNewReader (fileBytes : string) : option (list (string * string)) :=
  Some [ ("screenshot.png", "image"); ("log", "pickle") ].

Definition exOpen (f : string * string) : option string := Some (snd f).

Definition exLoad (reader : string) : option (value Z) := Some scenario.

Definition exUpload : Request -> list effect :=
  uploadHandler Z fmtWhole string (string * string) string
    exFormFile exReadAll exNewReader fst exOpen exLoad.

(** A submission of the scenario's form. *)
Definition exParseForm (r : Request) : option (list (string * list string)) :=
  Some [ ("root.gold", ["150"]);
         ("root.flags[1]", ["false"]);
         ("root.flags[0]", ["false"; "true"]) ].

(** An instance of the redirect answer: status 307 (Temporary Redirect),
    the target as [Location], and a link to the target as the body of a
    GET. *)
Definition exRedirection : Redirection := {|
  redirectCode := 307;
  redirectHeaders := fun url r => [ ("Location", url) ];
  redirectBody := fun url r =>
    if Method r =? "GET"
    then "<a href=" ++ quoted (EscapeString url) ++ ">Temporary Redirect</a>." ++
         nl ++ nl
    else ""
|}.

Definition exServe : Request -> list effect :=
  serve Z fmtWhole string (string * string) string
    exFormFile exReadAll exNewReader fst exOpen exLoad exParseForm
    exRedirection.

Definition getUpload : Request := {| Method := "GET"; URLPath := "/upload" |}.
Definition postUpload : Request := {| Method := "POST"; URLPath := "/upload" |}.
Definition postSave : Request := {| Method := "POST"; URLPath := "/save" |}.

(** The scenario's tree as a value with references: the map at address 0,
    the slice of flags at address 1. *)
Definition scenarioStore : store Z :=
  Build_store
    (fun address =>
       match address with
       | 0 => [ (SString "gold", DScalar (SInt KInt 100));
                (SString "flags", DSlice 1) ]
       | _ => []
       end)
    (fun address =>
       match address with
       | 1 => [ DScalar (SBool true); DScalar (SBool false) ]
       | _ => []
       end).

(** A slice whose only element is the slice itself, as after
    [a := make([]interface{}, 1); a[0] = a]. *)
Definition selfStore : store Z :=
  Build_store
    (fun address => [])
    (fun address =>
       match address with
       | 0 => [ DSlice 0 ]
       | _ => []
       end).

(** The same submission, visited in another order. *)
Definition exParseFormSwapped (r : Request)
  : option (list (string * list string)) :=
  Some [ ("root.flags[0]", ["false"; "true"]);
         ("root.gold", ["150"]);
         ("root.flags[1]", ["false"]) ].


(** * Properties *)

(** ** Strings *)

Lemma append_nil_r (s : string) : s ++ "" = s.
Proof. induction s as [|c s IH]; simpl; [reflexivity | now rewrite IH]. Qed.

Lemma append_assoc (a b c : string) : (a ++ b) ++ c = a ++ (b ++ c).
Proof. induction a as [|x a IH]; simpl; [reflexivity | now rewrite IH]. Qed.

Lemma append_inv_head (a b c : string) : a ++ b = a ++ c -> b = c.
Proof.
  induction a as [|x a IH]; simpl; intros H; [assumption|].
  injection H as H. auto.
Qed.

Lemma bytes_append (a b : string) : bytes (a ++ b) = (bytes a ++ bytes b)%list.
Proof.
  unfold bytes. induction a as [|x a IH]; simpl; [reflexivity | now rewrite IH].
Qed.

Lemma join_cons (x : string) (l : list string) : join (x :: l) = x ++ join l.
Proof.
  unfold join. destruct l as [|y l]; simpl; [now rewrite append_nil_r | reflexivity].
Qed.

Lemma join_app (l1 l2 : list string) : join (l1 ++ l2) = join l1 ++ join l2.
Proof.
  induction l1 as [|x l1 IH]; [reflexivity|].
  rewrite <- app_comm_cons, !join_cons, IH, append_assoc. reflexivity.
Qed.

(** ** Induction on value trees *)

Section ValueInduction.

Context {float : Type} (P : value float -> Prop).
Hypothesis Hscalar : forall a, P (VScalar a).
Hypothesis Hmap : forall v, Forall (fun e => P (snd e)) v -> P (VMap v).
Hypothesis Hslice : forall v, Forall P v -> P (VSlice v).

Fixpoint value_tree_ind (data : value float) : P data :=
  match data with
  | VScalar a => Hscalar a
  | VMap v =>
      Hmap v
        ((fix children (l : list (scalar float * value float))
            : Forall (fun e => P (snd e)) l :=
            match l with
            | [] => Forall_nil _
            | e :: l' => Forall_cons e (value_tree_ind (snd e)) (children l')
            end) v)
  | VSlice v =>
      Hslice v
        ((fix children (l : list (value float)) : Forall P l :=
            match l with
            | [] => Forall_nil _
            | x :: l' => Forall_cons x (value_tree_ind x) (children l')
            end) v)
  end.

End ValueInduction.

(** ** The encoder, case by case *)

Section EncoderFacts.

Context {float : Type} (fmtFloat : FloatKind -> float -> string).

Local Abbreviation render := (renderEditableForm fmtFloat).
Local Abbreviation paths := (leafPaths fmtFloat).

Lemma render_VMap (v : list (scalar float * value float)) (prefix : string) :
  render (VMap v) prefix = "<ul>" ++ join (mapItems fmtFloat prefix v) ++ "</ul>".
Proof.
  cbn [renderEditableForm].
  change ("" ++ "<ul>") with "<ul>".
  generalize "<ul>" as formBody.
  induction v as [|[key val] v IH]; intros formBody.
  - reflexivity.
  - rewrite IH. unfold mapItems. cbn [map fst snd].
    rewrite join_cons, !append_assoc. reflexivity.
Qed.

Lemma render_VSlice_from (v : list (value float)) (prefix : string) (i : nat)
    (formBody : string) :
  (fix range (rest : list (value float)) (i : nat) (formBody : string) : string :=
     match rest with
     | [] => formBody
     | val :: rest' =>
         range rest' (S i)
           (formBody ++ sliceItem (render val (indexPrefix prefix i)))
     end) v i formBody
  = formBody ++ join (sliceItems fmtFloat prefix i v).
Proof.
  revert i formBody.
  induction v as [|val v IH]; intros i formBody.
  - cbn. now rewrite append_nil_r.
  - rewrite IH. unfold sliceItems, indexed. cbn [length seq combine map fst snd].
    rewrite join_cons, !append_assoc. reflexivity.
Qed.

Lemma render_VSlice (v : list (value float)) (prefix : string) :
  render (VSlice v) prefix = "<ol>" ++ join (sliceItems fmtFloat prefix 0 v) ++ "</ol>".
Proof.
  cbn [renderEditableForm].
  rewrite render_VSlice_from, append_assoc. reflexivity.
Qed.

Lemma paths_VMap (v : list (scalar float * value float)) (prefix : string) :
  paths (VMap v) prefix =
  flat_map (fun e => paths (snd e) (keyPrefix prefix (sprintv fmtFloat (fst e)))) v.
Proof.
  cbn [leafPaths].
  induction v as [|[key val] v IH]; [reflexivity|].
  cbn [flat_map fst snd]. now rewrite IH.
Qed.

Lemma paths_VSlice_from (v : list (value float)) (prefix : string) (i : nat) :
  (fix range (rest : list (value float)) (i : nat) : list string :=
     match rest with
     | [] => []
     | val :: rest' =>
         (paths val (indexPrefix prefix i) ++ range rest' (S i))%list
     end) v i
  = flat_map (fun iv => paths (snd iv) (indexPrefix prefix (fst iv))) (indexed i v).
Proof.
  revert i. induction v as [|val v IH]; intros i; [reflexivity|].
  rewrite IH. reflexivity.
Qed.

Lemma paths_VSlice (v : list (value float)) (prefix : string) :
  paths (VSlice v) prefix =
  flat_map (fun iv => paths (snd iv) (indexPrefix prefix (fst iv))) (indexed 0 v).
Proof. cbn [leafPaths]. apply paths_VSlice_from. Qed.

Lemma indexed_nth_error {A : Type} (l : list A) (start i : nat) (x : A) :
  nth_error l i = Some x -> nth_error (indexed start l) i = Some (start + i, x).
Proof.
  revert start i. induction l as [|y l IH]; intros start [|i] H; try discriminate.
  - injection H as ->. cbn. now rewrite Nat.add_0_r.
  - cbn in H. change (nth_error (indexed start (y :: l)) (S i))
      with (nth_error (indexed (S start) l) i).
    rewrite (IH (S start) i H). f_equal. f_equal. lia.
Qed.

(** C5. A slice is encoded element by element in index order: the markup is
    the list items of the elements paired with their indices 0, 1, 2, ...,
    the element at index [i] being encoded under [prefix[i]], and the leaf
    paths follow the same order; three integers under [root] get the paths
    [root[0]], [root[1]], [root[2]], in that order. *)
Theorem sequence_order_preserved (v : list (value float)) (prefix : string) :
  render (VSlice v) prefix =
    "<ol>" ++
    join (map (fun iv => "<li>" ++
                         render (snd iv) (prefix ++ "[" ++ fmtNat (fst iv) ++ "]") ++
                         "</li>") (indexed 0 v)) ++
    "</ol>"
  /\ paths (VSlice v) prefix =
     flat_map (fun iv => paths (snd iv) (prefix ++ "[" ++ fmtNat (fst iv) ++ "]"))
       (indexed 0 v)
  /\ (forall i val, nth_error v i = Some val ->
                    nth_error (indexed 0 v) i = Some (i, val))
  /\ paths (VSlice [VScalar (SInt KInt 10); VScalar (SInt KInt 20);
                    VScalar (SInt KInt 30)]) "root"
     = ["root[0]"; "root[1]"; "root[2]"].
Proof.
  repeat split.
  - apply render_VSlice.
  - apply paths_VSlice.
  - intros i val H. apply (indexed_nth_error v 0 i val H).
Qed.

(** C4. A boolean leaf is a hidden field of value [false] followed by a
    checkbox of value [true]; both carry the escaped path as their name, and
    the checkbox carries [checked] exactly when the value is true. *)
Theorem boolean_leaf_rendering (b : bool) (prefix : string) :
  let name := quoted (EscapeString prefix) in
  exists checked : string,
    render (VScalar (SBool b)) prefix =
      ("<input type=" ++ quoted "hidden" ++ " name=" ++ name ++
       " value=" ++ quoted "false" ++ ">") ++
      ("<input type=" ++ quoted "checkbox" ++ " name=" ++ name ++
       " value=" ++ quoted "true" ++ " " ++ checked ++ ">")
    /\ (checked = "checked" <-> b = true)
    /\ (checked = "" <-> b = false).
Proof.
  intros name. exists (if b then "checked" else "").
  split.
  - cbn [renderEditableForm]. unfold boolInput, name.
    change ("" ++ ?x) with x. rewrite !append_assoc. reflexivity.
  - destruct b; split; split; intros H; try reflexivity; discriminate H.
Qed.

End EncoderFacts.

(** ** Bytes and classes *)

Lemma noneOf_append (sep : ascii -> bool) (a b : string) :
  noneOf sep (a ++ b) = noneOf sep a && noneOf sep b.
Proof. unfold noneOf. now rewrite bytes_append, forallb_app. Qed.

Lemma plain_append (a b : string) : plain (a ++ b) = plain a && plain b.
Proof. unfold plain. now rewrite bytes_append, forallb_app. Qed.

Lemma delimiters_append (a b : string) :
  delimiters (a ++ b) = (delimiters a ++ delimiters b)%list.
Proof. unfold delimiters. now rewrite bytes_append, filter_app. Qed.

Lemma delimiters_plain (s : string) : plain s = true -> delimiters s = [].
Proof.
  unfold plain, delimiters. induction (bytes s) as [|c l IH]; [reflexivity|].
  cbn. destruct (isDelimiter c); [discriminate | exact IH].
Qed.

Lemma delimiters_join (l : list string) :
  delimiters (join l) = concat (map delimiters l).
Proof.
  induction l as [|x l IH]; [reflexivity|].
  rewrite join_cons, delimiters_append, IH. reflexivity.
Qed.

Lemma delimiters_quoted (s : string) :
  delimiters (quoted s) = (dquote :: delimiters s ++ [dquote])%list.
Proof.
  unfold quoted. rewrite delimiters_append. reflexivity.
Qed.

(** *** [html.EscapeString] leaves no delimiter *)

Lemma escapeByte_plain (c : ascii) : plain (escapeByte c) = true.
Proof.
  unfold escapeByte.
  destruct (Ascii.eqb c "&") eqn:E1; [reflexivity|].
  destruct (Ascii.eqb c "'") eqn:E2; [reflexivity|].
  destruct (Ascii.eqb c "<") eqn:E3; [reflexivity|].
  destruct (Ascii.eqb c ">") eqn:E4; [reflexivity|].
  destruct (Ascii.eqb c dquote) eqn:E5; [reflexivity|].
  unfold plain, isDelimiter. cbn. now rewrite E2, E3, E4, E5.
Qed.

Lemma EscapeString_plain (s : string) : plain (EscapeString s) = true.
Proof.
  induction s as [|c s IH]; [reflexivity|].
  cbn [EscapeString]. now rewrite plain_append, escapeByte_plain, IH.
Qed.

Lemma EscapeString_delimiters (s : string) : delimiters (EscapeString s) = [].
Proof. apply delimiters_plain, EscapeString_plain. Qed.

(** *** Decimal texts are made of digits *)

Lemma digits_of_uint (d : uint) :
  forallb isDigit (bytes (NilEmpty.string_of_uint d)) = true.
Proof. induction d; cbn; auto. Qed.

Lemma NilZero_digits (d : uint) :
  forallb isDigit (bytes (NilZero.string_of_uint d)) = true.
Proof. destruct d; try apply digits_of_uint. reflexivity. Qed.

Lemma fmtN_digits (n : N) : forallb isDigit (bytes (fmtN n)) = true.
Proof. apply NilZero_digits. Qed.

Lemma N_to_uint_nonnil (n : N) : N.to_uint n <> Nil.
Proof.
  destruct n; [discriminate|]. apply DecimalPos.Unsigned.to_uint_nonnil.
Qed.

Lemma fmtN_inj (n m : N) : fmtN n = fmtN m -> n = m.
Proof.
  unfold fmtN. intros H.
  apply DecimalN.Unsigned.to_uint_inj.
  pose proof (NilZero.usu _ (N_to_uint_nonnil n)) as Hn.
  pose proof (NilZero.usu _ (N_to_uint_nonnil m)) as Hm.
  rewrite H in Hn. congruence.
Qed.

Lemma fmtNat_inj (i j : nat) : fmtNat i = fmtNat j -> i = j.
Proof. intros H. apply Nat2N.inj, fmtN_inj, H. Qed.

Lemma fmtZ_cases (z : Z) :
  fmtZ z = fmtN (Z.to_N z) \/ fmtZ z = String "-" (fmtN (Z.to_N (- z))).
Proof. destruct z; [left | left | right]; reflexivity. Qed.

Lemma digits_class (ok : ascii -> bool) (s : string) :
  (forall c, isDigit c = true -> ok c = true) ->
  forallb isDigit (bytes s) = true -> forallb ok (bytes s) = true.
Proof.
  intros Hok H. rewrite forallb_forall in *. auto.
Qed.

Lemma isDigit_not_delimiter (c : ascii) :
  isDigit c = true -> negb (isDelimiter c) = true.
Proof.
  unfold isDigit. cbn. rewrite !orb_true_iff.
  intros H. repeat destruct H as [H|H];
    try (apply Ascii.eqb_eq in H; subst c; reflexivity).
  discriminate.
Qed.

Lemma fmtN_plain (n : N) : plain (fmtN n) = true.
Proof.
  apply (digits_class (fun c => negb (isDelimiter c))), fmtN_digits.
  apply isDigit_not_delimiter.
Qed.

Lemma fmtZ_plain (z : Z) : plain (fmtZ z) = true.
Proof.
  destruct (fmtZ_cases z) as [-> | ->]; [apply fmtN_plain|].
  change (plain (fmtN (Z.to_N (- z))) = true). apply fmtN_plain.
Qed.

Lemma EscapeString_digits (s : string) :
  forallb isDigit (bytes s) = true -> EscapeString s = s.
Proof.
  induction s as [|c s IH]; [reflexivity|].
  cbn. rewrite andb_true_iff. intros [Hc Hs].
  rewrite (IH Hs). revert Hc. unfold isDigit. cbn. rewrite !orb_true_iff.
  intros H. repeat destruct H as [H|H];
    try (apply Ascii.eqb_eq in H; subst c; reflexivity).
  discriminate.
Qed.

(** *** What follows a [<] *)

Lemma followsLt_append (ok : ascii -> bool) (a b : string) :
  followsLt ok a = true -> followsLt ok b = true -> followsLt ok (a ++ b) = true.
Proof.
  intros Ha Hb. induction a as [|c a IH]; [exact Hb|].
  cbn [followsLt append] in *. apply andb_true_iff in Ha as [Hc Ha].
  rewrite (IH Ha), andb_true_r.
  destruct (Ascii.eqb c "<"); [|reflexivity].
  destruct a as [|d a]; [discriminate | exact Hc].
Qed.

Lemma followsLt_plain (ok : ascii -> bool) (s : string) :
  plain s = true -> followsLt ok s = true.
Proof.
  unfold plain. induction s as [|c s IH]; [reflexivity|].
  cbn [bytes list_ascii_of_string forallb followsLt].
  rewrite andb_true_iff. intros [Hc Hs].
  fold (bytes s) in Hs. rewrite (IH Hs), andb_true_r.
  unfold isDelimiter in Hc. destruct (Ascii.eqb c "<"); [discriminate | reflexivity].
Qed.

Lemma followsLt_join (ok : ascii -> bool) (l : list string) :
  Forall (fun x => followsLt ok x = true) l -> followsLt ok (join l) = true.
Proof.
  induction 1 as [|x l Hx Hl IH]; [reflexivity|].
  rewrite join_cons. now apply followsLt_append.
Qed.

Lemma followsLt_quoted (ok : ascii -> bool) (s : string) :
  followsLt ok s = true -> followsLt ok (quoted s) = true.
Proof.
  intros H. unfold quoted.
  apply followsLt_append; [|reflexivity].
  cbn [followsLt]. change (Ascii.eqb dquote "<") with false. exact H.
Qed.

Lemma followsLt_contains (ok : ascii -> bool) (d : ascii) (rest s : string) :
  followsLt ok s = true -> ok d = false ->
  contains (String "<" (String d rest)) s = false.
Proof.
  intros Hs Hd. induction s as [|c s IH]; [reflexivity|].
  cbn [followsLt] in Hs. apply andb_true_iff in Hs as [Hc Hs].
  cbn [contains]. rewrite (IH Hs), orb_false_r.
  cbn [prefix]. destruct (ascii_dec "<" c) as [<-|]; [|reflexivity].
  cbn in Hc. destruct s as [|e s]; [reflexivity|].
  cbn [prefix]. destruct (ascii_dec d e) as [<-|]; [|reflexivity].
  congruence.
Qed.

Lemma Forall_indexed {A : Type} (P : A -> Prop) (l : list A) (start : nat) :
  Forall P l -> Forall (fun iv => P (snd iv)) (indexed start l).
Proof.
  intros H. revert start. induction H as [|x l Hx Hl IH]; intros start.
  - constructor.
  - unfold indexed. cbn [length seq combine]. constructor; [exact Hx|].
    apply IH.
Qed.

Ltac follows :=
  repeat first
    [ assumption
    | reflexivity
    | apply followsLt_quoted
    | apply followsLt_append
    | apply followsLt_plain;
      first [ apply EscapeString_plain | apply fmtZ_plain | apply fmtN_plain
            | assumption | reflexivity ] ].

Section Escaping.

Context {float : Type} (fmtFloat : FloatKind -> float -> string).

Local Abbreviation render := (renderEditableForm fmtFloat).

(** Every [<] of the markup starts one of the encoder's own tags, when the
    text of a float holds no delimiter. *)
Lemma render_followsLt :
  (forall k f, plain (fmtFloat k f) = true) ->
  forall (data : value float) (prefix : string),
    followsLt tagStart (render data prefix) = true.
Proof.
  intros Hfloat data.
  induction data as [a|v IH|v IH] using value_tree_ind; intros prefix.
  - destruct a; cbn [renderEditableForm sprintv];
      unfold textInput, numberInput, floatInput, boolInput, codeDisplay, nilMarker;
      follows.
    + apply followsLt_plain, Hfloat.
    + destruct b; reflexivity.
  - rewrite render_VMap. follows.
    apply followsLt_join. unfold mapItems. rewrite Forall_map.
    eapply Forall_impl; [|exact IH]. cbv beta. intros e He.
    unfold mapItem. follows. apply He.
  - rewrite render_VSlice. follows.
    apply followsLt_join. unfold sliceItems. rewrite Forall_map.
    eapply Forall_impl; [|exact (Forall_indexed _ v 0 IH)]. cbv beta.
    intros iv Hiv. unfold sliceItem. follows. apply Hiv.
Qed.

Ltac delims :=
  repeat first
    [ rewrite delimiters_append
    | rewrite delimiters_quoted
    | rewrite EscapeString_delimiters ].

(** The delimiters of the markup do not depend on the texts the user
    controls, nor on the prefix. *)
Lemma render_delimiters_blank (data : value float) :
  forall prefix prefix',
    delimiters (render data prefix) = delimiters (render (blank data) prefix').
Proof.
  induction data as [a|v IH|v IH] using value_tree_ind; intros prefix prefix'.
  - destruct a; cbn [renderEditableForm blank sprintv];
      unfold textInput, numberInput, floatInput, boolInput, codeDisplay;
      delims; reflexivity.
  - cbn [blank]. rewrite !render_VMap. delims. rewrite !delimiters_join.
    do 3 f_equal. unfold mapItems. rewrite !map_map.
    induction IH as [|e v He Hv IHv]; [reflexivity|].
    cbn [map]. rewrite IHv. f_equal.
    unfold mapItem. cbn [fst snd]. delims. now rewrite (He _ (keyPrefix prefix' (sprintv fmtFloat (SString "")))).
  - cbn [blank]. rewrite !render_VSlice. delims. rewrite !delimiters_join.
    do 3 f_equal. unfold sliceItems. rewrite !map_map.
    generalize 0 as start.
    induction IH as [|x v Hx Hv IHv]; intros start; [reflexivity|].
    unfold indexed in *. cbn [map length seq combine fst snd].
    rewrite IHv. f_equal.
    unfold sliceItem. delims. now rewrite (Hx _ (indexPrefix prefix' start)).
Qed.

(** C3. The markup delimiters of the output are those of the same tree with
    every user-controlled text (strings, keys, prefix, texts of unnamed
    shapes) emptied: such text reaches the output only through
    [html.EscapeString], which leaves no delimiter, so it can neither open a
    tag nor close an attribute; and the output never holds the substring
    [<script>], whatever the strings of the tree are. *)
Theorem user_text_is_escaped
    (Hfloat : forall k f, plain (fmtFloat k f) = true)
    (data : value float) (prefix : string) :
  delimiters (render data prefix) = delimiters (render (blank data) "")
  /\ (forall s, plain (EscapeString s) = true)
  /\ contains "<script>" (render data prefix) = false.
Proof.
  split; [apply render_delimiters_blank|].
  split; [apply EscapeString_plain|].
  apply (followsLt_contains tagStart); [|reflexivity].
  apply render_followsLt, Hfloat.
Qed.

(** C9. An unsigned integer is not named by the switch: it is shown as its
    decimal text inside [<code>], as any unnamed shape with that text is;
    the output holds no input element and differs from the numeric input
    of the signed integer of the same value. *)
Theorem unsigned_falls_to_opaque (k : UintKind) (n : N) (prefix : string) :
  render (VScalar (SUint k n)) prefix = "<code>" ++ fmtN n ++ "</code>"
  /\ render (VScalar (SUint k n)) prefix = render (VScalar (SOther (fmtN n))) prefix
  /\ contains "<input" (render (VScalar (SUint k n)) prefix) = false
  /\ (forall k', render (VScalar (SUint k n)) prefix <>
                 render (VScalar (SInt k' (Z.of_N n))) prefix).
Proof.
  assert (E : render (VScalar (SUint k n)) prefix = "<code>" ++ fmtN n ++ "</code>").
  { cbn [renderEditableForm sprintv]. unfold codeDisplay.
    now rewrite (EscapeString_digits _ (fmtN_digits n)). }
  split; [exact E|]. split; [reflexivity|]. split.
  - rewrite E. apply (followsLt_contains (fun c => negb (Ascii.eqb c "i")));
      [|reflexivity].
    follows.
  - intros k'. rewrite E. cbn. discriminate.
Qed.

End Escaping.

(** ** The encoder on values with references *)

Section ReferenceFacts.

Context {float : Type} (fmtFloat : FloatKind -> float -> string).
Context (h : store float).

Local Abbreviation render := (renderEditableForm fmtFloat).

Lemma rangeMapOn_mono (rec rec' : dyn float -> string -> option string)
    (prefix : string) :
  (forall d p s, rec d p = Some s -> rec' d p = Some s) ->
  forall rest formBody s,
    rangeMapOn fmtFloat rec prefix rest formBody = Some s ->
    rangeMapOn fmtFloat rec' prefix rest formBody = Some s.
Proof.
  intros Hrec rest. induction rest as [|[key val] rest IH]; intros formBody s H.
  - exact H.
  - cbn [rangeMapOn] in *.
    destruct (rec val _) as [body|] eqn:E; [|discriminate].
    rewrite (Hrec _ _ _ E). now apply IH.
Qed.

Lemma rangeSliceOn_mono (rec rec' : dyn float -> string -> option string)
    (prefix : string) :
  (forall d p s, rec d p = Some s -> rec' d p = Some s) ->
  forall rest i formBody s,
    rangeSliceOn rec prefix rest i formBody = Some s ->
    rangeSliceOn rec' prefix rest i formBody = Some s.
Proof.
  intros Hrec rest. induction rest as [|val rest IH]; intros i formBody s H.
  - exact H.
  - cbn [rangeSliceOn] in *.
    destruct (rec val _) as [body|] eqn:E; [|discriminate].
    rewrite (Hrec _ _ _ E). now apply IH.
Qed.

(** A call that returns within some depth returns the same within any
    greater depth. *)
Lemma renderOn_mono (depth depth' : nat) :
  depth <= depth' ->
  forall data prefix s,
    renderOn fmtFloat h depth data prefix = Some s ->
    renderOn fmtFloat h depth' data prefix = Some s.
Proof.
  revert depth'. induction depth as [|depth IH]; intros depth' Hle data prefix s H;
    [discriminate|].
  destruct depth' as [|depth']; [lia|].
  assert (Hrec : forall d p s0,
             renderOn fmtFloat h depth d p = Some s0 ->
             renderOn fmtFloat h depth' d p = Some s0)
    by (apply IH; lia).
  destruct data as [a|address|address].
  - exact H.
  - cbn [renderOn] in *.
    destruct (rangeMapOn fmtFloat (renderOn fmtFloat h depth) _ _ _) as [body|] eqn:E;
      [|discriminate].
    now rewrite (rangeMapOn_mono _ _ _ Hrec _ _ _ E).
  - cbn [renderOn] in *.
    destruct (rangeSliceOn (renderOn fmtFloat h depth) _ _ _ _) as [body|] eqn:E;
      [|discriminate].
    now rewrite (rangeSliceOn_mono _ _ _ Hrec _ _ _ _ E).
Qed.

Lemma rangeMapOn_tree (rec : dyn float -> string -> option string)
    (prefix : string) (rest : list (scalar float * dyn float))
    (v : list (scalar float * value float)) :
  Forall2 (fun e e' => fst e = fst e' /\
                       forall p, rec (snd e) p = Some (render (snd e') p)) rest v ->
  forall formBody,
    rangeMapOn fmtFloat rec prefix rest formBody
    = Some (formBody ++ join (mapItems fmtFloat prefix v)).
Proof.
  induction 1 as [|[key val] [key' t] rest v [Hkey Hval] Hall IH]; intros formBody.
  - cbn. now rewrite append_nil_r.
  - cbn [fst snd] in Hkey, Hval. subst key'.
    cbn [rangeMapOn]. rewrite Hval, IH.
    unfold mapItems. cbn [map fst snd].
    now rewrite join_cons, append_assoc.
Qed.

Lemma rangeSliceOn_tree (rec : dyn float -> string -> option string)
    (prefix : string) (rest : list (dyn float)) (v : list (value float)) :
  Forall2 (fun d t => forall p, rec d p = Some (render t p)) rest v ->
  forall i formBody,
    rangeSliceOn rec prefix rest i formBody
    = Some (formBody ++ join (sliceItems fmtFloat prefix i v)).
Proof.
  induction 1 as [|val t rest v Hval Hall IH]; intros i formBody.
  - cbn. now rewrite append_nil_r.
  - cbn [rangeSliceOn]. rewrite Hval, IH.
    unfold sliceItems, indexed. cbn [length seq combine map fst snd].
    now rewrite join_cons, append_assoc.
Qed.

(** On a value that is a finite tree the recursion returns within some
    depth, and returns what [renderEditableForm] gives for the tree. *)
Lemma renderOn_tree (data : dyn float) (t : value float) :
  isTree h data t ->
  exists depth, forall depth', depth <= depth' -> forall prefix,
      renderOn fmtFloat h depth' data prefix = Some (render t prefix).
Proof.
  revert data t. fix IH 3. intros data t Htree.
  destruct Htree as [a|address v Hall|address v Hall].
  - exists 1. intros [|depth'] Hle prefix; [lia|].
    destruct a; reflexivity.
  - assert (exists depth,
               Forall2 (fun e e' =>
                          fst e = fst e' /\
                          forall p, renderOn fmtFloat h depth (snd e) p
                                    = Some (render (snd e') p))
                 (mapAt h address) v) as [depth Hdepth].
    { generalize (mapAt h address) v Hall. clear Hall.
      fix IHall 3. intros rest v' Hall. destruct Hall as [|e e' rest v' [Hk Ht] Hall].
      - exists 0. constructor.
      - destruct (IH _ _ Ht) as [d1 H1]. destruct (IHall _ _ Hall) as [d2 H2].
        exists (max d1 d2). constructor.
        + split; [exact Hk|]. intros p. apply H1. lia.
        + eapply Forall2_impl; [|exact H2]. cbv beta.
          intros x y [Hxy Hr]. split; [exact Hxy|]. intros p.
          apply (renderOn_mono d2); [lia | apply Hr]. }
    exists (S depth). intros [|depth'] Hle prefix; [lia|].
    cbn [renderOn].
    rewrite (rangeMapOn_tree (renderOn fmtFloat h depth') prefix _ v).
    + rewrite render_VMap, !append_assoc. reflexivity.
    + eapply Forall2_impl; [|exact Hdepth]. cbv beta.
      intros x y [Hxy Hr]. split; [exact Hxy|]. intros p.
      apply (renderOn_mono depth); [lia | apply Hr].
  - assert (exists depth,
               Forall2 (fun d t' =>
                          forall p, renderOn fmtFloat h depth d p
                                    = Some (render t' p))
                 (sliceAt h address) v) as [depth Hdepth].
    { generalize (sliceAt h address) v Hall. clear Hall.
      fix IHall 3. intros rest v' Hall. destruct Hall as [|d t' rest v' Ht Hall].
      - exists 0. constructor.
      - destruct (IH _ _ Ht) as [d1 H1]. destruct (IHall _ _ Hall) as [d2 H2].
        exists (max d1 d2). constructor.
        + intros p. apply H1. lia.
        + eapply Forall2_impl; [|exact H2]. cbv beta.
          intros x y Hr p. apply (renderOn_mono d2); [lia | apply Hr]. }
    exists (S depth). intros [|depth'] Hle prefix; [lia|].
    cbn [renderOn].
    rewrite (rangeSliceOn_tree (renderOn fmtFloat h depth') prefix _ v).
    + rewrite render_VSlice, !append_assoc. reflexivity.
    + eapply Forall2_impl; [|exact Hdepth]. cbv beta.
      intros x y Hr p. apply (renderOn_mono depth); [lia | apply Hr].
Qed.

(** A value below which no chain of elements descends for ever is a finite
    tree. *)
Lemma acyclic_isTree (data : dyn float) :
  Acc (child h) data -> exists t, isTree h data t.
Proof.
  induction 1 as [data _ IH]. destruct data as [a|address|address].
  - exists (VScalar a). constructor.
  - assert (exists v,
               Forall2 (fun e e' => fst e = fst e' /\ isTree h (snd e) (snd e'))
                 (mapAt h address) v) as [v Hv].
    { assert (Hin : forall e, In e (mapAt h address) ->
                              exists t, isTree h (snd e) t).
      { intros [key val] He. apply IH. eapply child_of_map. exact He. }
      induction (mapAt h address) as [|e rest IHrest].
      - exists []. constructor.
      - destruct (Hin e (or_introl eq_refl)) as [t Ht].
        destruct IHrest as [v Hv]; [intros e' He'; apply Hin; now right|].
        exists ((fst e, t) :: v). constructor; [now split | exact Hv]. }
    exists (VMap v). now constructor.
  - assert (exists v, Forall2 (isTree h) (sliceAt h address) v) as [v Hv].
    { assert (Hin : forall d, In d (sliceAt h address) -> exists t, isTree h d t).
      { intros val He. apply IH. eapply child_of_slice. exact He. }
      induction (sliceAt h address) as [|d rest IHrest].
      - exists []. constructor.
      - destruct (Hin d (or_introl eq_refl)) as [t Ht].
        destruct IHrest as [v Hv]; [intros d' Hd'; apply Hin; now right|].
        exists (t :: v). now constructor. }
    exists (VSlice v). now constructor.
Qed.

Lemma Forall2_In_l {A B : Type} (R : A -> B -> Prop) (l : list A) (l' : list B)
    (x : A) :
  Forall2 R l l' -> In x l -> exists y, R x y.
Proof.
  induction 1 as [|a b l l' Hab Hall IH]; intros Hin; [destruct Hin|].
  destruct Hin as [<-|Hin]; [now exists b | auto].
Qed.

(** Induction on [isTree], with the property of the children. *)
Lemma isTree_induction (P : dyn float -> value float -> Prop) :
  (forall a, P (DScalar a) (VScalar a)) ->
  (forall address v,
      Forall2 (fun e e' => fst e = fst e' /\ P (snd e) (snd e'))
        (mapAt h address) v ->
      P (DMap address) (VMap v)) ->
  (forall address v,
      Forall2 P (sliceAt h address) v -> P (DSlice address) (VSlice v)) ->
  forall data t, isTree h data t -> P data t.
Proof.
  intros Hscalar Hmap Hslice. fix IH 3. intros data t Htree.
  destruct Htree as [a|address v Hall|address v Hall].
  - apply Hscalar.
  - apply Hmap. revert Hall. generalize (mapAt h address) v.
    fix IHall 3. intros rest v' Hall.
    destruct Hall as [|e e' rest v' [Hk Ht] Hall]; constructor.
    + split; [exact Hk | apply IH, Ht].
    + apply IHall, Hall.
  - apply Hslice. revert Hall. generalize (sliceAt h address) v.
    fix IHall 3. intros rest v' Hall.
    destruct Hall as [|d t' rest v' Ht Hall]; constructor.
    + apply IH, Ht.
    + apply IHall, Hall.
Qed.

(** Conversely, below a finite tree no chain of elements descends for
    ever. *)
Lemma isTree_acyclic (data : dyn float) (t : value float) :
  isTree h data t -> Acc (child h) data.
Proof.
  revert data t. apply isTree_induction.
  - intros a. constructor. intros y Hy. inversion Hy.
  - intros address v Hall. constructor. intros y Hy.
    inversion Hy as [address' key val Hin|]; subst.
    destruct (Forall2_In_l _ _ _ _ Hall Hin) as [e' [_ Hacc]]. exact Hacc.
  - intros address v Hall. constructor. intros y Hy.
    inversion Hy as [|address' val Hin]; subst.
    destruct (Forall2_In_l _ _ _ _ Hall Hin) as [t' Hacc]. exact Hacc.
Qed.

(** C6, amended. On every value whose maps and slices do not contain
    themselves (no chain of elements descends for ever below it) and for
    every prefix, the recursion of the encoder returns: the value is a
    finite tree, from some depth of nested calls on the call returns, and
    what it returns is the markup of that tree, never an error; and a
    scalar of a shape the switch does not name is shown, escaped, inside
    [<code>]. *)
Theorem encoder_total (data : dyn float) (Hfinite : Acc (child h) data) :
  (exists t depth,
      isTree h data t
      /\ forall depth', depth <= depth' -> forall prefix,
            renderOn fmtFloat h depth' data prefix = Some (render t prefix))
  /\ (forall a, data = DScalar a -> unnamed a = true ->
      forall depth prefix,
        renderOn fmtFloat h (S depth) data prefix
        = Some ("<code>" ++ EscapeString (sprintv fmtFloat a) ++ "</code>")).
Proof.
  split.
  - destruct (acyclic_isTree data Hfinite) as [t Ht].
    destruct (renderOn_tree data t Ht) as [depth Hdepth].
    exists t, depth. split; assumption.
  - intros a -> Ha depth prefix.
    destruct a; try discriminate Ha; reflexivity.
Qed.

End ReferenceFacts.


(** ** The leaves and the markup

    The list of leaf paths is the list of the prefixes of the encoder's calls
    on leaves, and the markup of each such call occurs in the output. *)

Lemma prefix_refl (s : string) : String.prefix s s = true.
Proof.
  induction s as [|c s IH]; [reflexivity|].
  cbn. destruct (ascii_dec c c); [exact IH | congruence].
Qed.

Lemma prefix_append (sub a b : string) :
  String.prefix sub a = true -> String.prefix sub (a ++ b) = true.
Proof.
  revert a. induction sub as [|c sub IH]; intros a H;
    [destruct (a ++ b); reflexivity|].
  destruct a as [|d a]; [discriminate|].
  cbn in *. destruct (ascii_dec c d); [auto | discriminate].
Qed.

Lemma contains_refl (s : string) : contains s s = true.
Proof.
  destruct s as [|c s]; [reflexivity|].
  cbn [contains]. now rewrite prefix_refl.
Qed.

Lemma contains_append_l (sub a b : string) :
  contains sub a = true -> contains sub (a ++ b) = true.
Proof.
  induction a as [|c a IH]; cbn [contains append]; intros H.
  - rewrite orb_false_r in H. destruct sub; [|discriminate].
    destruct b; reflexivity.
  - apply orb_true_iff in H as [H|H].
    + change (String c (a ++ b)) with (String c a ++ b).
      now rewrite (prefix_append _ _ b H).
    + rewrite (IH H). apply orb_true_r.
Qed.

Lemma contains_append_r (sub a b : string) :
  contains sub b = true -> contains sub (a ++ b) = true.
Proof.
  intros H. induction a as [|c a IH]; [exact H|].
  cbn [contains append]. rewrite IH. apply orb_true_r.
Qed.

Lemma contains_join (sub x : string) (l : list string) :
  In x l -> contains sub x = true -> contains sub (join l) = true.
Proof.
  intros Hin Hx. induction l as [|y l IH]; [destruct Hin|].
  rewrite join_cons. destruct Hin as [->|Hin].
  - now apply contains_append_l.
  - apply contains_append_r. auto.
Qed.

Section Leaves.

Context {float : Type} (fmtFloat : FloatKind -> float -> string).

Local Abbreviation render := (renderEditableForm fmtFloat).

Lemma leaves_VMap (v : list (scalar float * value float)) (prefix : string) :
  leaves fmtFloat (VMap v) prefix =
  flat_map (fun e => leaves fmtFloat (snd e)
                       (keyPrefix prefix (sprintv fmtFloat (fst e)))) v.
Proof.
  cbn [leaves].
  induction v as [|[key val] v IH]; [reflexivity|].
  cbn [flat_map fst snd]. now rewrite IH.
Qed.

Lemma leaves_VSlice_from (v : list (value float)) (prefix : string) (i : nat) :
  (fix range (rest : list (value float)) (i : nat) : list (string * scalar float) :=
     match rest with
     | [] => []
     | val :: rest' =>
         (leaves fmtFloat val (indexPrefix prefix i) ++ range rest' (S i))%list
     end) v i
  = flat_map (fun iv => leaves fmtFloat (snd iv) (indexPrefix prefix (fst iv)))
      (indexed i v).
Proof.
  revert i. induction v as [|val v IH]; intros i; [reflexivity|].
  rewrite IH. reflexivity.
Qed.

Lemma leaves_VSlice (v : list (value float)) (prefix : string) :
  leaves fmtFloat (VSlice v) prefix =
  flat_map (fun iv => leaves fmtFloat (snd iv) (indexPrefix prefix (fst iv)))
    (indexed 0 v).
Proof. cbn [leaves]. apply leaves_VSlice_from. Qed.

Lemma map_fst_flat_map {A : Type} (f : A -> list (string * scalar float))
    (g : A -> list string) (l : list A) :
  Forall (fun x => map fst (f x) = g x) l ->
  map fst (flat_map f l) = flat_map g l.
Proof.
  induction 1 as [|x l Hx Hl IH]; [reflexivity|].
  cbn [flat_map]. now rewrite map_app, Hx, IH.
Qed.

Lemma leafPaths_leaves (data : value float) :
  forall prefix,
    map fst (leaves fmtFloat data prefix) = leafPaths fmtFloat data prefix.
Proof.
  induction data as [a|v IH|v IH] using value_tree_ind; intros prefix.
  - reflexivity.
  - rewrite leaves_VMap, paths_VMap. apply map_fst_flat_map.
    eapply Forall_impl; [|exact IH]. cbv beta. auto.
  - rewrite leaves_VSlice, paths_VSlice. apply map_fst_flat_map.
    eapply Forall_impl; [|exact (Forall_indexed _ v 0 IH)]. cbv beta. auto.
Qed.

(** The markup of a leaf, encoded under its path, is part of the output. *)
Lemma leaf_markup_occurs (data : value float) :
  forall prefix x a,
    In (x, a) (leaves fmtFloat data prefix) ->
    contains (render (VScalar a) x) (render data prefix) = true.
Proof.
  induction data as [b|v IH|v IH] using value_tree_ind; intros prefix x a Hin.
  - destruct Hin as [E|[]]. injection E as <- <-. apply contains_refl.
  - rewrite leaves_VMap in Hin. apply in_flat_map in Hin as [e [He Hin]].
    rewrite Forall_forall in IH. specialize (IH e He _ _ _ Hin).
    rewrite render_VMap. apply contains_append_r, contains_append_l.
    eapply contains_join.
    + unfold mapItems. apply in_map. exact He.
    + cbv beta. unfold mapItem.
      do 3 apply contains_append_r. now apply contains_append_l.
  - rewrite leaves_VSlice in Hin. apply in_flat_map in Hin as [iv [He Hin]].
    pose proof (Forall_indexed _ v 0 IH) as IH'.
    rewrite Forall_forall in IH'. specialize (IH' iv He _ _ _ Hin).
    rewrite render_VSlice. apply contains_append_r, contains_append_l.
    eapply contains_join.
    + unfold sliceItems. apply in_map. exact He.
    + cbv beta. unfold sliceItem.
      apply contains_append_r. now apply contains_append_l.
Qed.

End Leaves.


(** ** Paths *)

(** Two texts free of separators, each followed by nothing or by a
    separator, can be told apart from the concatenations. *)
Lemma split_at_separator (sep : ascii -> bool) (a a' t t' : string) :
  noneOf sep a = true -> noneOf sep a' = true ->
  startsIn sep t = true -> startsIn sep t' = true ->
  a ++ t = a' ++ t' -> a = a' /\ t = t'.
Proof.
  revert a'. induction a as [|c a IH]; intros [|c' a'] Ha Ha' Ht Ht' E.
  - now split.
  - cbn in E. subst t. unfold noneOf in Ha'. cbn in Ha', Ht.
    rewrite Ht in Ha'. discriminate.
  - cbn in E. subst t'. unfold noneOf in Ha. cbn in Ha, Ht'.
    rewrite Ht' in Ha. discriminate.
  - cbn in E. injection E as -> E.
    unfold noneOf in Ha, Ha'. cbn in Ha, Ha'.
    apply andb_true_iff in Ha as [_ Ha]. apply andb_true_iff in Ha' as [_ Ha'].
    destruct (IH a' Ha Ha' Ht Ht' E) as [-> ->]. now split.
Qed.

Lemma distinct_NoDup (l : list string) : distinct l = true -> NoDup l.
Proof.
  induction l as [|x l IH]; cbn; intros H; constructor.
  - apply andb_true_iff in H as [H _]. apply negb_true_iff in H.
    intros Hin. assert (existsb (String.eqb x) l = true) as E.
    { apply existsb_exists. exists x. split; [exact Hin | apply String.eqb_refl]. }
    congruence.
  - apply andb_true_iff in H as [_ H]. auto.
Qed.

Lemma indexed_ge {A : Type} (l : list A) (start j : nat) (x : A) :
  In (j, x) (indexed start l) -> start <= j.
Proof.
  revert start. induction l as [|y l IH]; intros start; [intros []|].
  unfold indexed. cbn [length seq combine In]. intros [E|H].
  - injection E as <- _. lia.
  - apply IH in H. lia.
Qed.

Lemma fmtNat_no_bracket (i : nat) :
  noneOf (fun c => Ascii.eqb c "]") (fmtNat i) = true.
Proof.
  unfold noneOf, fmtNat.
  apply (digits_class (fun c => negb (Ascii.eqb c "]"))), fmtN_digits.
  intros c. unfold isDigit. cbn. rewrite !orb_true_iff.
  intros H. repeat destruct H as [H|H];
    try (apply Ascii.eqb_eq in H; subst c; reflexivity).
  discriminate.
Qed.

Section Paths.

Context {float : Type} (fmtFloat : FloatKind -> float -> string).

Local Abbreviation paths := (leafPaths fmtFloat).
Local Abbreviation keyText := (sprintv fmtFloat).

(** Every leaf path is the prefix followed by nothing or by a path step. *)
Lemma paths_shape (data : value float) :
  forall prefix x, In x (paths data prefix) ->
    exists t, x = prefix ++ t /\ startsIn isSeparator t = true.
Proof.
  induction data as [a|v IH|v IH] using value_tree_ind; intros prefix x Hx.
  - destruct Hx as [<-|[]]. exists "". now rewrite append_nil_r.
  - rewrite paths_VMap in Hx. apply in_flat_map in Hx as [e [He Hx]].
    rewrite Forall_forall in IH.
    destruct (IH e He _ _ Hx) as [t [-> _]].
    exists ("." ++ keyText (fst e) ++ t). split; [|reflexivity].
    unfold keyPrefix. now rewrite !append_assoc.
  - rewrite paths_VSlice in Hx. apply in_flat_map in Hx as [[i val] [He Hx]].
    pose proof (Forall_indexed _ v 0 IH) as IH'. rewrite Forall_forall in IH'.
    destruct (IH' _ He _ _ Hx) as [t [-> _]].
    exists ("[" ++ fmtNat i ++ "]" ++ t). split; [|reflexivity].
    unfold indexPrefix. cbn [fst]. now rewrite !append_assoc.
Qed.

(** The leaves below two keys of different, separator-free texts have
    different paths. *)
Lemma key_paths_apart (prefix k k' : string) (d d' : value float) (x : string) :
  separatorFree k = true -> separatorFree k' = true -> k <> k' ->
  In x (paths d (keyPrefix prefix k)) -> In x (paths d' (keyPrefix prefix k')) ->
  False.
Proof.
  intros Hk Hk' Hne Hx Hx'.
  destruct (paths_shape _ _ _ Hx) as [t [E Ht]].
  destruct (paths_shape _ _ _ Hx') as [t' [E' Ht']].
  rewrite E in E'. unfold keyPrefix in E'. rewrite !append_assoc in E'.
  apply append_inv_head in E'. cbn in E'. injection E' as E'.
  destruct (split_at_separator isSeparator k k' t t' Hk Hk' Ht Ht' E') as [Ek _].
  contradiction.
Qed.

(** The leaves below two different indices have different paths. *)
Lemma index_paths_apart (prefix : string) (i j : nat) (d d' : value float)
    (x : string) :
  i <> j ->
  In x (paths d (indexPrefix prefix i)) -> In x (paths d' (indexPrefix prefix j)) ->
  False.
Proof.
  intros Hne Hx Hx'.
  destruct (paths_shape _ _ _ Hx) as [t [E _]].
  destruct (paths_shape _ _ _ Hx') as [t' [E' _]].
  rewrite E in E'. unfold indexPrefix in E'. rewrite !append_assoc in E'.
  apply append_inv_head in E'. cbn in E'. injection E' as E'.
  destruct (split_at_separator (fun c => Ascii.eqb c "]")
              (fmtNat i) (fmtNat j) ("]" ++ t) ("]" ++ t')
              (fmtNat_no_bracket i) (fmtNat_no_bracket j)
              eq_refl eq_refl E') as [Ei _].
  apply fmtNat_inj in Ei. contradiction.
Qed.

Lemma paths_NoDup (data : value float) :
  forall prefix, pathSafe fmtFloat data = true -> NoDup (paths data prefix).
Proof.
  induction data as [a|v IH|v IH] using value_tree_ind; intros prefix Hsafe.
  - cbn. constructor; [intros [] | constructor].
  - rewrite paths_VMap. cbn [pathSafe] in Hsafe.
    apply andb_true_iff in Hsafe as [Hsafe Hsub].
    apply andb_true_iff in Hsafe as [Hdist Hfree].
    induction IH as [|e v He Hv IHv]; [constructor|].
    cbn [map distinct forallb flat_map] in *.
    apply andb_true_iff in Hdist as [Hk Hdist].
    apply andb_true_iff in Hfree as [Hke Hfree].
    apply andb_true_iff in Hsub as [Hse Hsub].
    apply NoDup_app; [now apply He | now apply IHv |].
    intros x Hx Hx'. apply in_flat_map in Hx' as [e' [He' Hx']].
    apply (key_paths_apart prefix (keyText (fst e)) (keyText (fst e'))
             (snd e) (snd e') x); auto.
    + rewrite forallb_forall in Hfree. now apply Hfree.
    + intros E. apply negb_true_iff in Hk.
      assert (existsb (String.eqb (keyText (fst e)))
                (map (fun e => keyText (fst e)) v) = true) as Hex.
      { apply existsb_exists. exists (keyText (fst e')). split.
        - apply in_map_iff. now exists e'.
        - now apply String.eqb_eq. }
      congruence.
  - rewrite paths_VSlice. cbn [pathSafe] in Hsafe.
    generalize 0 as start.
    induction IH as [|d v Hd Hv IHv]; intros start; [constructor|].
    cbn [forallb] in Hsafe. apply andb_true_iff in Hsafe as [Hsd Hsafe].
    unfold indexed. cbn [length seq combine flat_map fst snd].
    apply NoDup_app; [now apply Hd | now apply IHv |].
    intros x Hx Hx'. apply in_flat_map in Hx' as [[j d'] [He' Hx']].
    apply indexed_ge in He'. cbn [fst snd] in Hx'.
    apply (index_paths_apart prefix start j d d' x); auto. lia.
Qed.

(** C1, amended. In a tree where, at every map, the texts of the keys are
    pairwise different and hold neither [.] nor [[], the leaves have
    pairwise different paths: no path occurs at two positions of the list of
    leaf paths; and under one prefix, two keys of different texts give
    different child prefixes. *)
Theorem path_injectivity (data : value float) (prefix : string)
    (Hsafe : pathSafe fmtFloat data = true) :
  NoDup (paths data prefix)
  /\ (forall i j x,
        nth_error (paths data prefix) i = Some x ->
        nth_error (paths data prefix) j = Some x -> i = j)
  /\ (forall k k' : scalar float,
        keyText k <> keyText k' ->
        keyPrefix prefix (keyText k) <> keyPrefix prefix (keyText k')).
Proof.
  pose proof (paths_NoDup data prefix Hsafe) as Hnd.
  split; [exact Hnd|]. split.
  - intros i j x Hi Hj.
    apply (proj1 (NoDup_nth_error _) Hnd).
    + apply nth_error_Some. congruence.
    + congruence.
  - intros k k' Hne E. unfold keyPrefix in E.
    apply append_inv_head in E. injection E as E. contradiction.
Qed.

End Paths.

(** ** The handlers *)

Lemma keys_loop (postForm : list (string * list string)) (keys : list string) :
  fold_left (fun keys e => (keys ++ [fst e])%list) postForm keys
  = (keys ++ map fst postForm)%list.
Proof.
  revert keys. induction postForm as [|e m IH]; intros keys; cbn.
  - now rewrite app_nil_r.
  - rewrite IH, <- app_assoc. reflexivity.
Qed.

Lemma statusOf_stdout (texts : list string) (f : string -> string)
    (rest : list effect) :
  statusOf (map (fun key => Stdout (f key)) texts ++ rest) = statusOf rest.
Proof. induction texts as [|x l IH]; [reflexivity | exact IH]. Qed.

Lemma bodyOf_stdout (texts : list string) (f : string -> string)
    (rest : list effect) :
  bodyOf (map (fun key => Stdout (f key)) texts ++ rest) = bodyOf rest.
Proof. induction texts as [|x l IH]; [reflexivity | exact IH]. Qed.

Lemma headerOf_stdout (name : string) (texts : list string)
    (f : string -> string) (rest : list effect) :
  headerOf name (map (fun key => Stdout (f key)) texts ++ rest)
  = headerOf name rest.
Proof. induction texts as [|x l IH]; [reflexivity | exact IH]. Qed.

Lemma method_not_post (r : Request) :
  Method r <> MethodPost -> negb (Method r =? MethodPost) = true.
Proof. intros H. apply negb_true_iff, String.eqb_neq, H. Qed.

Lemma method_post (r : Request) :
  Method r = MethodPost -> negb (Method r =? MethodPost) = false.
Proof. intros ->. reflexivity. Qed.


Section ServerFacts.

Context {float : Type} (fmtFloat : FloatKind -> float -> string).
Context {File ZipFile Reader : Type}.
Context (FormFile : Request -> string -> option File).
Context (ReadAll : File -> option string).
Context (NewReader : string -> option (list ZipFile)).
Context (Name : ZipFile -> string).
Context (Open : ZipFile -> option Reader).
Context (Load : Reader -> option (value float)).
Context (ParseForm : Request -> option (list (string * list string))).

Context (redirection : Redirection).

Local Abbreviation upload :=
  (uploadHandler float fmtFloat File ZipFile Reader FormFile ReadAll NewReader
     Name Open Load).
Local Abbreviation save := (saveHandler ParseForm).
Local Abbreviation server :=
  (serve float fmtFloat File ZipFile Reader FormFile ReadAll NewReader
     Name Open Load ParseForm redirection).

(** C7, amended. A request to [/upload] whose method is not POST is answered
    with status 405 (Method Not Allowed) and the handler makes no call to
    the packages that read the upload: the uploaded file is not read. *)
Theorem upload_rejects_other_methods (r : Request)
    (Hmethod : Method r <> MethodPost) :
  statusOf (upload r) = StatusMethodNotAllowed
  /\ callsOf (upload r) = []
  /\ bodyOf (upload r) = "Only POST method is allowed" ++ nl.
Proof.
  unfold uploadHandler. rewrite (method_not_post r Hmethod).
  repeat split.
Qed.

(** X1. The answers of the upload handler to a POST, step by step: 400
    when the request has no file [savefile], 500 when the file cannot be
    read or is no archive, 400 when the archive has no entry [log], 500 when
    the entry cannot be opened or unpickled, and otherwise 200 with the edit
    page of the unpickled tree, encoded under the prefix [root]. *)
Lemma upload_handler_statuses (r : Request) (Hmethod : Method r = MethodPost) :
  match FormFile r "savefile" with
  | None => statusOf (upload r) = StatusBadRequest
  | Some file =>
    match ReadAll file with
    | None => statusOf (upload r) = StatusInternalServerError
    | Some fileBytes =>
      match NewReader fileBytes with
      | None => statusOf (upload r) = StatusInternalServerError
      | Some zipReader =>
        match find (fun f => Name f =? "log") zipReader with
        | None => statusOf (upload r) = StatusBadRequest
        | Some logFile =>
          match Open logFile with
          | None => statusOf (upload r) = StatusInternalServerError
          | Some logFileReader =>
            match Load logFileReader with
            | None => statusOf (upload r) = StatusInternalServerError
            | Some data =>
                statusOf (upload r) = StatusOK
                /\ bodyOf (upload r) =
                   editPage (renderEditableForm fmtFloat data "root")
            end
          end
        end
      end
    end
  end.
Proof.
  unfold uploadHandler. rewrite (method_post r Hmethod).
  destruct (FormFile r "savefile") as [file|]; [|reflexivity].
  destruct (ReadAll file) as [fileBytes|]; [|reflexivity].
  destruct (NewReader fileBytes) as [zipReader|]; [|reflexivity].
  destruct (find _ zipReader) as [logFile|]; [|reflexivity].
  destruct (Open logFile) as [logFileReader|]; [|reflexivity].
  destruct (Load logFileReader) as [data|]; [|reflexivity].
  split; [reflexivity|]. cbn [app bodyOf]. apply append_nil_r.
Qed.

(** A file that was retrieved is closed on every path, last of all. *)
Lemma upload_closes_file (r : Request) (file : File) :
  Method r = MethodPost -> FormFile r "savefile" = Some file ->
  exists calls, callsOf (upload r) = (calls ++ [CCloseFile])%list.
Proof.
  intros Hmethod Hfile. unfold uploadHandler.
  rewrite (method_post r Hmethod), Hfile.
  unfold callsOf. rewrite app_comm_cons, flat_map_app.
  eexists. reflexivity.
Qed.

(** C8. The save handler answers 405 when the method is not POST; 500 when
    the method is POST and the form does not parse; otherwise it prints the
    heading, then one line per submitted key in increasing order of the
    keys, and only then writes the acknowledgment: status 200, no HTML
    content type, the fixed text as body. *)
Theorem save_handler_responses (r : Request) :
  (Method r <> MethodPost -> statusOf (save r) = StatusMethodNotAllowed)
  /\ (Method r = MethodPost -> ParseForm r = None ->
      statusOf (save r) = StatusInternalServerError)
  /\ (forall postForm,
        Method r = MethodPost -> ParseForm r = Some postForm ->
        let keys := sortStrings (map fst postForm) in
        save r =
          (Stdout ("Received form data:" ++ nl) ::
           map (fun key =>
                  Stdout ("  " ++ key ++ ": " ++
                          fmtStrings (valuesOf postForm key) ++ nl)) keys ++
           [Write saveAck])%list
        /\ Permutation (map fst postForm) keys
        /\ Sorted (fun a b => String.leb a b = true) keys
        /\ statusOf (save r) = StatusOK
        /\ bodyOf (save r) = saveAck
        /\ headerOf "Content-Type" (save r) = None).
Proof.
  split; [|split].
  - intros Hmethod. unfold saveHandler. now rewrite (method_not_post r Hmethod).
  - intros Hmethod Hparse. unfold saveHandler.
    now rewrite (method_post r Hmethod), Hparse.
  - intros postForm Hmethod Hparse keys. unfold saveHandler.
    rewrite (method_post r Hmethod), Hparse, keys_loop. cbn [app]. fold keys.
    split; [reflexivity|].
    split; [apply StringSort.Permuted_sort|].
    split; [apply StringSort.Sorted_sort|].
    cbn [statusOf bodyOf headerOf].
    rewrite statusOf_stdout, bodyOf_stdout, headerOf_stdout.
    repeat split.
Qed.



Lemma callsOf_RedirectHandler (url : string) (r : Request) :
  callsOf (RedirectHandler redirection url r) = [].
Proof.
  unfold RedirectHandler.
  induction (redirectHeaders redirection url r) as [|kv l IH]; [reflexivity|].
  exact IH.
Qed.




End ServerFacts.

(** ** The properties on concrete inputs *)

(** The scenario of the specification: the paths of its three leaves. *)
Example scenario_paths :
  leafPaths fmtWhole scenario "root" = ["root.gold"; "root.flags[0]"; "root.flags[1]"].
Proof. reflexivity. Qed.

(** C1 as stated fails.  The integer key 1 and the string key [1] are two
    keys of one map, and their leaves are both given the path [root.1]; a
    key that holds a dot collides with a nested key, although all the keys
    have different texts. *)
Lemma path_collision :
  (@SInt Z KInt 1 <> SString "1"
   /\ leafPaths fmtWhole collidingKeys "root" = ["root.1"; "root.1"]
   /\ ~ NoDup (leafPaths fmtWhole collidingKeys "root"))
  /\ (leafPaths fmtWhole dottedKey "root" = ["root.a.b"; "root.a.b"]
      /\ ~ NoDup (leafPaths fmtWhole dottedKey "root")).
Proof.
  split; [split; [discriminate | split; [reflexivity|]] | split; [reflexivity|]].
  - intros H. cbn in H. inversion H as [|x l Hin _]. apply Hin. now left.
  - intros H. cbn in H. inversion H as [|x l Hin _]. apply Hin. now left.
Qed.

(** The two trees are outside the hypothesis of the amended statement. *)
Example colliding_trees_not_safe :
  pathSafe fmtWhole collidingKeys = false /\ pathSafe fmtWhole dottedKey = false.
Proof. split; reflexivity. Qed.

Lemma path_injectivity_witness :
  pathSafe fmtWhole scenario = true
  /\ NoDup (leafPaths fmtWhole scenario "root").
Proof.
  split; [reflexivity|].
  apply (path_injectivity fmtWhole scenario "root" eq_refl).
Defined.

(** C2 fails on the code: one map, visited by [range] in two orders, is
    encoded to two different strings. *)
Lemma range_order_changes_markup :
  Permutation twoEntries twoEntriesSwapped
  /\ renderEditableForm fmtWhole (VMap twoEntries) "root"
     <> renderEditableForm fmtWhole (VMap twoEntriesSwapped) "root".
Proof.
  split; [apply perm_swap|]. vm_compute. discriminate.
Qed.

Lemma user_text_is_escaped_witness :
  (forall k f, plain (fmtWhole k f) = true)
  /\ delimiters (renderEditableForm fmtWhole hostile "<script>")
     = delimiters (renderEditableForm fmtWhole (blank hostile) "")
  /\ contains "<script>" (renderEditableForm fmtWhole hostile "<script>") = false.
Proof.
  assert (H : forall k f, plain (fmtWhole k f) = true)
    by (intros k f; apply fmtZ_plain).
  split; [exact H|].
  destruct (user_text_is_escaped fmtWhole H hostile "<script>") as (Hd & _ & Hs).
  split; assumption.
Defined.

(** The scenario as a value with references is the scenario's tree, and
    the recursion returns its markup within three nested calls. *)
Lemma scenario_isTree : isTree scenarioStore (DMap 0) scenario.
Proof.
  apply isTree_map. cbn [scenarioStore mapAt].
  constructor; [split; [reflexivity | constructor]|].
  constructor; [split; [reflexivity|] | constructor].
  apply isTree_slice. cbn [scenarioStore sliceAt snd].
  repeat constructor.
Qed.

Example scenario_on_references :
  renderOn fmtWhole scenarioStore 3 (DMap 0) "root"
  = Some (renderEditableForm fmtWhole scenario "root")
  /\ renderOn fmtWhole scenarioStore 2 (DMap 0) "root" = None.
Proof. split; reflexivity. Qed.

(** C6 as stated fails.  A slice whose only element is the slice itself is
    a value of the switch's slice case, and the recursion on it never
    returns, whatever the number of nested calls allowed: in Go the stack
    grows until the program is stopped. *)
Lemma self_containing_slice_never_returns :
  child selfStore (DSlice 0) (DSlice 0)
  /\ (forall depth prefix,
        renderOn fmtWhole selfStore depth (DSlice 0) prefix = None)
  /\ ~ Acc (child selfStore) (DSlice 0).
Proof.
  assert (Hself : child selfStore (DSlice 0) (DSlice 0))
    by (eapply child_of_slice; left; reflexivity).
  split; [exact Hself|]. split.
  - intros depth. induction depth as [|depth IH]; intros prefix; [reflexivity|].
    cbn [renderOn selfStore sliceAt rangeSliceOn]. now rewrite IH.
  - intros Hacc. remember (@DSlice Z 0) as d eqn:E.
    induction Hacc as [d _ IH]. subst d. exact (IH _ Hself eq_refl Hself).
Qed.

Lemma encoder_total_witness :
  Acc (child scenarioStore) (DMap 0)
  /\ exists t depth,
      isTree scenarioStore (DMap 0) t
      /\ forall depth', depth <= depth' -> forall prefix,
            renderOn fmtWhole scenarioStore depth' (DMap 0) prefix
            = Some (renderEditableForm fmtWhole t prefix).
Proof.
  assert (H : Acc (child scenarioStore) (DMap 0))
    by exact (isTree_acyclic scenarioStore _ _ scenario_isTree).
  split; [exact H|].
  exact (proj1 (encoder_total fmtWhole scenarioStore (DMap 0) H)).
Defined.

(** The upload of the scenario succeeds: the calls made, in order, and the
    page sent. *)
Example upload_scenario :
  statusOf (exUpload postUpload) = StatusOK
  /\ callsOf (exUpload postUpload)
     = [ CFormFile "savefile"; CReadAll; CNewReader; COpen "log"; CLoad;
         CCloseReader; CCloseFile ]
  /\ bodyOf (exUpload postUpload)
     = editPage (renderEditableForm fmtWhole scenario "root").
Proof. repeat split. Qed.

(** C7 as stated fails: a GET to [/upload] is answered 405, not 400. *)
Lemma upload_wrong_method_is_405 :
  statusOf (exUpload getUpload) = 405
  /\ statusOf (exUpload getUpload) <> StatusBadRequest.
Proof. split; [reflexivity | discriminate]. Qed.

Lemma upload_rejects_other_methods_witness :
  Method getUpload <> MethodPost
  /\ statusOf (exUpload getUpload) = StatusMethodNotAllowed
  /\ callsOf (exUpload getUpload) = []
  /\ bodyOf (exUpload getUpload) = "Only POST method is allowed" ++ nl.
Proof.
  assert (H : Method getUpload <> MethodPost) by discriminate.
  split; [exact H|].
  apply (upload_rejects_other_methods fmtWhole exFormFile exReadAll exNewReader
           fst exOpen exLoad getUpload H).
Defined.

Lemma save_handler_witness :
  stdoutOf (saveHandler exParseForm postSave)
  = "Received form data:" ++ nl ++
    "  root.flags[0]: [false true]" ++ nl ++
    "  root.flags[1]: [false]" ++ nl ++
    "  root.gold: [150]" ++ nl
  /\ statusOf (saveHandler exParseForm postSave) = StatusOK
  /\ bodyOf (saveHandler exParseForm postSave) = saveAck.
Proof.
  destruct (save_handler_responses exParseForm postSave) as (_ & _ & H).
  destruct (H _ eq_refl eq_refl) as (E & _ & _ & Hstatus & Hbody & _).
  split; [rewrite E; reflexivity|]. split; assumption.
Defined.



(** The registered paths reach their own handlers. *)
Example registered_routes :
  exServe postUpload = exUpload postUpload
  /\ exServe postSave = saveHandler exParseForm postSave.
Proof. split; reflexivity. Qed.

(** * Further properties *)

(** ** The upload handler and the server: what is called, and when *)

Lemma callsOf_app (t1 t2 : list effect) :
  callsOf (t1 ++ t2) = (callsOf t1 ++ callsOf t2)%list.
Proof. unfold callsOf. apply flat_map_app. Qed.

Lemma callsOf_httpError (error : string) (code : nat) :
  callsOf (httpError error code) = [].
Proof. reflexivity. Qed.

Lemma callsOf_stdout (texts : list string) (f : string -> string)
    (rest : list effect) :
  callsOf (map (fun key => Stdout (f key)) texts ++ rest) = callsOf rest.
Proof. induction texts as [|x l IH]; [reflexivity | exact IH]. Qed.

Lemma callsOf_saveHandler
    (ParseForm : Request -> option (list (string * list string))) (r : Request) :
  callsOf (saveHandler ParseForm r) = [].
Proof.
  unfold saveHandler. destruct (negb (Method r =? MethodPost)); [reflexivity|].
  destruct (ParseForm r) as [postForm|]; [|reflexivity].
  change (callsOf (Stdout ?h :: ?t)) with (callsOf t).
  apply callsOf_stdout.
Qed.

Section UploadProtocol.

Context {float : Type} (fmtFloat : FloatKind -> float -> string).
Context {File ZipFile Reader : Type}.
Context (FormFile : Request -> string -> option File).
Context (ReadAll : File -> option string).
Context (NewReader : string -> option (list ZipFile)).
Context (Name : ZipFile -> string).
Context (Open : ZipFile -> option Reader).
Context (Load : Reader -> option (value float)).
Context (ParseForm : Request -> option (list (string * list string))).
Context (redirection : Redirection).

Local Abbreviation upload :=
  (uploadHandler float fmtFloat File ZipFile Reader FormFile ReadAll NewReader
     Name Open Load).
Local Abbreviation server :=
  (serve float fmtFloat File ZipFile Reader FormFile ReadAll NewReader
     Name Open Load ParseForm redirection).

Lemma found_log (zipReader : list ZipFile) (logFile : ZipFile) :
  find (fun f => Name f =? "log") zipReader = Some logFile ->
  Name logFile = "log".
Proof. intros H. apply find_some in H as [_ H]. now apply String.eqb_eq. Qed.

(** X2. Whatever the request and whatever the packages answer, the calls of
    the upload handler form one of six sequences: each step is made only
    after the steps before it, the only archive entry ever opened is [log],
    the entry is closed exactly when it was opened and the file exactly when
    it was retrieved, the entry before the file. *)
Theorem upload_call_sequences (r : Request) :
  In (callsOf (upload r)) uploadProtocol.
Proof.
  unfold uploadHandler, uploadProtocol.
  destruct (negb (Method r =? MethodPost)); [now left|].
  destruct (FormFile r "savefile") as [file|]; [|right; now left].
  destruct (ReadAll file) as [fileBytes|]; [|do 2 right; now left].
  destruct (NewReader fileBytes) as [zipReader|]; [|do 3 right; now left].
  destruct (find _ zipReader) as [logFile|] eqn:Hfind; [|do 3 right; now left].
  rewrite (found_log _ _ Hfind).
  destruct (Open logFile) as [logFileReader|]; [|do 4 right; now left].
  destruct (Load logFileReader) as [data|]; do 5 right; now left.
Qed.

(** X3. On a POST whose file was retrieved, the file is closed exactly once
    and last of all, on every path; and once the entry [log] is open, it is
    unpickled and closed before the file, whether unpickling succeeds or
    not. *)
Theorem upload_closes_what_it_opens (r : Request) (file : File)
    (Hmethod : Method r = MethodPost)
    (Hfile : FormFile r "savefile" = Some file) :
  (exists mid,
      callsOf (upload r) = (CFormFile "savefile" :: mid ++ [CCloseFile])%list
      /\ ~ In CCloseFile mid)
  /\ (forall fileBytes zipReader logFile logFileReader,
        ReadAll file = Some fileBytes ->
        NewReader fileBytes = Some zipReader ->
        find (fun f => Name f =? "log") zipReader = Some logFile ->
        Open logFile = Some logFileReader ->
        callsOf (upload r) =
        [ CFormFile "savefile"; CReadAll; CNewReader; COpen "log"; CLoad;
          CCloseReader; CCloseFile ]).
Proof.
  unfold uploadHandler. rewrite (method_post r Hmethod), Hfile. split.
  - destruct (ReadAll file) as [fileBytes|];
      [|exists [CReadAll]; split; [reflexivity | intros [H|[]]; discriminate H]].
    destruct (NewReader fileBytes) as [zipReader|];
      [|exists [CReadAll; CNewReader]; split;
        [reflexivity | intros [H|[H|[]]]; discriminate H]].
    destruct (find _ zipReader) as [logFile|] eqn:Hfind;
      [|exists [CReadAll; CNewReader]; split;
        [reflexivity | intros [H|[H|[]]]; discriminate H]].
    destruct (Open logFile) as [logFileReader|];
      [|exists [CReadAll; CNewReader; COpen (Name logFile)]; split;
        [reflexivity | intros [H|[H|[H|[]]]]; discriminate H]].
    exists [CReadAll; CNewReader; COpen (Name logFile); CLoad; CCloseReader].
    split.
    + destruct (Load logFileReader); reflexivity.
    + intros [H|[H|[H|[H|[H|[]]]]]]; discriminate H.
  - intros fileBytes zipReader logFile logFileReader Hread Hzip Hfind Hopen.
    rewrite Hread, Hzip, Hfind, Hopen, (found_log _ _ Hfind).
    destruct (Load logFileReader); reflexivity.
Qed.

(** X4. The server calls the packages that read an upload only for a POST
    to [/upload]: no other method and no other path, registered or not,
    makes it touch the request's file. *)
Theorem server_reads_upload_only_on_post (r : Request) (c : call) :
  In c (callsOf (server r)) ->
  Method r = MethodPost /\ URLPath r = "/upload".
Proof.
  assert (Hdispatch : forall path,
             In c (callsOf (dispatch float fmtFloat File ZipFile Reader FormFile
                              ReadAll NewReader Name Open Load ParseForm path r)) ->
             Method r = MethodPost /\ path = "/upload").
  { intros path. unfold dispatch, muxMatch, routes. cbn [find fst].
    destruct (String.eqb_spec "/upload" path) as [Eup|_].
    - intros Hin. split; [|now symmetry].
      destruct (String.eqb_spec (Method r) MethodPost) as [E|Hne]; [exact E|].
      unfold uploadHandler in Hin. rewrite (method_not_post r Hne) in Hin.
      destruct Hin.
    - destruct ("/save" =? path).
      + rewrite callsOf_saveHandler. intros [].
      + destruct ("/" =? path); [intros []|].
        cbn. destruct (String.prefix "/" path); intros []. }
  unfold serve.
  destruct (Method r =? MethodConnect); [apply Hdispatch|].
  destruct (String.eqb_spec (cleanPath (URLPath r)) (URLPath r)) as [E|_].
  - cbn [negb]. rewrite E. apply Hdispatch.
  - cbn [negb]. rewrite callsOf_RedirectHandler. intros [].
Qed.

End UploadProtocol.

(** ** Substrings *)

Lemma prefix_split (sub s : string) :
  String.prefix sub s = true -> exists b, s = sub ++ b.
Proof.
  revert s. induction sub as [|c sub IH]; intros s H.
  - now exists s.
  - destruct s as [|d s]; [discriminate|]. cbn in H.
    destruct (ascii_dec c d) as [<-|]; [|discriminate].
    destruct (IH s H) as [b ->]. now exists b.
Qed.

Lemma contains_split (sub s : string) :
  contains sub s = true -> exists a b, s = a ++ sub ++ b.
Proof.
  induction s as [|c s IH]; cbn [contains]; intros H.
  - rewrite orb_false_r in H. destruct (prefix_split _ _ H) as [b E].
    exists "", b. exact E.
  - apply orb_true_iff in H as [H|H].
    + destruct (prefix_split _ _ H) as [b E]. exists "", b. exact E.
    + destruct (IH H) as [a [b ->]]. now exists (String c a), b.
Qed.

Lemma contains_middle (a sub b : string) : contains sub (a ++ sub ++ b) = true.
Proof. apply contains_append_r, contains_append_l, contains_refl. Qed.

Lemma contains_trans (x y z : string) :
  contains x y = true -> contains y z = true -> contains x z = true.
Proof.
  intros Hxy Hyz. destruct (contains_split _ _ Hyz) as [a [b ->]].
  now apply contains_append_r, contains_append_l.
Qed.

Lemma prefix_contains (sub s : string) :
  String.prefix sub s = true -> contains sub s = true.
Proof.
  intros H. destruct (prefix_split _ _ H) as [b ->].
  apply contains_append_l, contains_refl.
Qed.

Lemma prefix_of_append (a b : string) : String.prefix a (a ++ b) = true.
Proof. apply prefix_append, prefix_refl. Qed.

(** ** The encoder: leaves, fields and inputs *)

Section Fields.

Context {float : Type} (fmtFloat : FloatKind -> float -> string).

Local Abbreviation render := (renderEditableForm fmtFloat).

(** X5. No leaf is dropped: for every leaf of the tree, the markup the
    encoder writes for that leaf alone under the leaf's path is a part of
    the output, at whatever depth the leaf lies. *)
Theorem every_leaf_is_rendered (data : value float) (prefix x : string)
    (a : scalar float) (Hleaf : In (x, a) (leaves fmtFloat data prefix)) :
  contains (render (VScalar a) x) (render data prefix) = true.
Proof. exact (leaf_markup_occurs fmtFloat data prefix x a Hleaf). Qed.

Lemma editable_leaf_names (a : scalar float) (x : string) :
  editable a = true ->
  contains ("name=" ++ quoted (EscapeString x)) (render (VScalar a) x) = true.
Proof.
  intros Ha.
  destruct a as [s|k z|k n|k f|b| |shown]; try discriminate Ha;
    cbn [renderEditableForm];
    unfold textInput, numberInput, floatInput, boolInput;
    change ("" ++ ?t) with t;
    change (" name=" ++ ?t) with (" " ++ "name=" ++ t);
    repeat match goal with
      | |- contains (?a ++ ?q) (?a ++ ?q ++ _) = true =>
          rewrite <- append_assoc; apply contains_append_l, contains_refl
      | |- contains _ (_ ++ _) = true => apply contains_append_r
      end.
Qed.

(** X6. Every string, number and boolean of the tree is a field of the
    form: its escaped path is the [name] attribute of an input of the
    output. *)
Theorem editable_leaf_is_a_field (data : value float) (prefix x : string)
    (a : scalar float)
    (Hleaf : In (x, a) (leaves fmtFloat data prefix))
    (Heditable : editable a = true) :
  contains ("name=" ++ quoted (EscapeString x)) (render data prefix) = true.
Proof.
  apply (contains_trans _ (render (VScalar a) x)).
  - now apply editable_leaf_names.
  - now apply leaf_markup_occurs.
Qed.

End Fields.

Section Inputs.

Context {float : Type} (fmtFloat : FloatKind -> float -> string).

Local Abbreviation render := (renderEditableForm fmtFloat).

Lemma editable_leaf_has_input (a : scalar float) (x : string) :
  editable a = true -> contains "<input" (render (VScalar a) x) = true.
Proof.
  intros Ha.
  destruct a as [s|k z|k n|k f|b| |shown]; try discriminate Ha;
    cbn [renderEditableForm];
    unfold textInput, numberInput, floatInput, boolInput;
    change ("" ++ ?t) with t; now apply contains_append_l.
Qed.

Lemma render_without_inputs (data : value float) :
  forall prefix,
    (forall x a, In (x, a) (leaves fmtFloat data prefix) -> editable a = false) ->
    followsLt (fun c => tagStart c && negb (Ascii.eqb c "i"))
      (render data prefix) = true.
Proof.
  induction data as [a|v IH|v IH] using value_tree_ind; intros prefix Hnone.
  - specialize (Hnone prefix a (or_introl eq_refl)).
    destruct a; try discriminate Hnone;
      cbn [renderEditableForm sprintv]; unfold codeDisplay, nilMarker; follows.
  - rewrite render_VMap. follows.
    apply followsLt_join. unfold mapItems. rewrite Forall_map.
    rewrite Forall_forall in *. intros e He.
    unfold mapItem. follows. apply (IH e He). intros x a Hin.
    apply (Hnone x a). rewrite leaves_VMap. apply in_flat_map. now exists e.
  - rewrite render_VSlice. follows.
    apply followsLt_join. unfold sliceItems. rewrite Forall_map.
    pose proof (Forall_indexed _ v 0 IH) as IH'.
    rewrite Forall_forall in *. intros iv Hiv.
    unfold sliceItem. follows. apply (IH' iv Hiv). intros x a Hin.
    apply (Hnone x a). rewrite leaves_VSlice. apply in_flat_map. now exists iv.
Qed.

(** X7. The form holds an input element exactly when the tree has a leaf
    that is a string, a signed integer, a float or a boolean: a tree of nil
    and unnamed shapes only (unsigned integers among them) is shown but
    offers nothing to edit or to submit. *)
Theorem input_iff_editable_leaf (data : value float) (prefix : string) :
  contains "<input" (render data prefix)
  = existsb (fun l => editable (snd l)) (leaves fmtFloat data prefix).
Proof.
  destruct (existsb _ (leaves fmtFloat data prefix)) eqn:E.
  - apply existsb_exists in E as [[x a] [Hin Ha]].
    apply (contains_trans _ (render (VScalar a) x)).
    + now apply editable_leaf_has_input.
    + now apply leaf_markup_occurs.
  - apply (followsLt_contains (fun c => tagStart c && negb (Ascii.eqb c "i")));
      [|reflexivity].
    apply render_without_inputs. intros x a Hin.
    destruct (editable a) eqn:Ha; [|reflexivity].
    assert (existsb (fun l => editable (snd l)) (leaves fmtFloat data prefix)
            = true) as E'
      by (apply existsb_exists; now exists (x, a)).
    congruence.
Qed.

(** X8. Every leaf path starts with the prefix the encoder was called with,
    and what follows the prefix is nothing (the tree is a single leaf) or a
    step that starts with [.] or [[]: in the edit page, where the prefix is
    [root], every field name extends [root]. *)
Theorem leaf_paths_extend_prefix (data : value float) (prefix x : string)
    (Hpath : In x (leafPaths fmtFloat data prefix)) :
  String.prefix prefix x = true
  /\ exists steps, x = prefix ++ steps /\ startsIn isSeparator steps = true.
Proof.
  destruct (paths_shape fmtFloat data prefix x Hpath) as [t [-> Ht]].
  split; [apply prefix_of_append | now exists t].
Qed.

(** X9. The order in which [range] visits the maps moves the leaves in the
    output but changes neither their paths nor their values: the calls of
    the encoder on the leaves in two runs on the same tree are permutations
    of one another, and so are the leaf paths. *)
Theorem leaves_do_not_depend_on_order (data data' : value float)
    (Hsame : reordered data data') (prefix : string) :
  Permutation (leaves fmtFloat data prefix) (leaves fmtFloat data' prefix)
  /\ Permutation (leafPaths fmtFloat data prefix) (leafPaths fmtFloat data' prefix).
Proof.
  assert (H : forall prefix,
             Permutation (leaves fmtFloat data prefix)
               (leaves fmtFloat data' prefix)).
  { clear prefix. revert data data' Hsame. fix IH 3.
    intros data data' Hsame prefix.
    destruct Hsame as [a|v v' w Hall Hperm|v v' Hall].
    - apply Permutation_refl.
    - rewrite !leaves_VMap.
      apply Permutation_trans with
        (flat_map (fun e => leaves fmtFloat (snd e)
                              (keyPrefix prefix (sprintv fmtFloat (fst e)))) v');
        [|now apply Permutation_flat_map].
      clear Hperm w. revert v v' Hall. fix IHall 3. intros v v' Hall.
      destruct Hall as [|e e' v v' [Hkey Hval] Hall]; [constructor|].
      cbn [flat_map]. apply Permutation_app.
      + rewrite Hkey. apply IH, Hval.
      + apply IHall, Hall.
    - rewrite !leaves_VSlice. generalize 0 as start.
      revert v v' Hall. fix IHall 3. intros v v' Hall start.
      destruct Hall as [|d d' v v' Hval Hall]; [constructor|].
      unfold indexed. cbn [length seq combine flat_map fst snd].
      apply Permutation_app.
      + apply IH, Hval.
      + apply IHall, Hall. }
  split; [apply H|].
  rewrite <- !leafPaths_leaves. apply Permutation_map, H.
Qed.

End Inputs.

(** ** The encoder: the tags of the output *)

Lemma tagRun_app (st : tagState) (l1 l2 : list ascii) :
  tagRun st (l1 ++ l2) =
  match tagRun st l1 with
  | Some st' => tagRun st' l2
  | None => None
  end.
Proof.
  revert st. induction l1 as [|c l1 IH]; intros st; [reflexivity|].
  cbn. destruct (tagStep st c); [apply IH | reflexivity].
Qed.

Lemma wellTagged_append (a b : string) :
  wellTagged a = true -> wellTagged b = true -> wellTagged (a ++ b) = true.
Proof.
  unfold wellTagged. rewrite delimiters_append, tagRun_app.
  destruct (tagRun Outside (delimiters a)) as [[| |]|]; try discriminate.
  auto.
Qed.

Lemma wellTagged_plain (s : string) : plain s = true -> wellTagged s = true.
Proof. intros H. unfold wellTagged. now rewrite (delimiters_plain s H). Qed.

Lemma wellTagged_join (l : list string) :
  Forall (fun x => wellTagged x = true) l -> wellTagged (join l) = true.
Proof.
  induction 1 as [|x l Hx Hl IH]; [reflexivity|].
  rewrite join_cons. now apply wellTagged_append.
Qed.

Section Tags.

Context {float : Type} (fmtFloat : FloatKind -> float -> string).
Hypothesis Hfloat : forall k f, plain (fmtFloat k f) = true.

Local Abbreviation render := (renderEditableForm fmtFloat).

Lemma leaf_wellTagged (a : scalar float) (prefix : string) :
  wellTagged (render (VScalar a) prefix) = true.
Proof.
  destruct a as [s|k z|k n|k f|b| |shown];
    cbn [renderEditableForm sprintv];
    unfold textInput, numberInput, floatInput, boolInput, codeDisplay, nilMarker,
      wellTagged;
    repeat first
      [ rewrite delimiters_append
      | rewrite delimiters_quoted
      | rewrite EscapeString_delimiters
      | rewrite (delimiters_plain _ (fmtZ_plain z))
      | rewrite (delimiters_plain _ (Hfloat k f)) ];
    try reflexivity.
  destruct b; reflexivity.
Qed.

(** X12. Whatever the strings, keys and prefix are, the delimiters of the
    output form complete tags: every [<] opens a tag that a [>] closes,
    every double quote inside a tag opens an attribute value that the next
    double quote closes, and no delimiter stands between tags or inside a
    value.  No text of the tree can end a value or a tag early.  (The text
    of a float is assumed to hold no delimiter.) *)
Theorem markup_is_well_tagged (data : value float) (prefix : string) :
  wellTagged (render data prefix) = true.
Proof.
  revert prefix.
  induction data as [a|v IH|v IH] using value_tree_ind; intros prefix.
  - apply leaf_wellTagged.
  - rewrite render_VMap.
    apply wellTagged_append; [reflexivity|].
    apply wellTagged_append; [|reflexivity].
    apply wellTagged_join. unfold mapItems. rewrite Forall_map.
    eapply Forall_impl; [|exact IH]. cbv beta. intros e He.
    unfold mapItem.
    apply wellTagged_append; [reflexivity|].
    apply wellTagged_append; [apply wellTagged_plain, EscapeString_plain|].
    apply wellTagged_append; [reflexivity|].
    apply wellTagged_append; [apply He | reflexivity].
  - rewrite render_VSlice.
    apply wellTagged_append; [reflexivity|].
    apply wellTagged_append; [|reflexivity].
    apply wellTagged_join. unfold sliceItems. rewrite Forall_map.
    eapply Forall_impl; [|exact (Forall_indexed _ v 0 IH)]. cbv beta.
    intros iv Hiv. unfold sliceItem.
    apply wellTagged_append; [reflexivity|].
    apply wellTagged_append; [apply Hiv | reflexivity].
Qed.

End Tags.

(** ** The edit page *)

Section EditPage.

Context {float : Type} (fmtFloat : FloatKind -> float -> string).
Context {File ZipFile Reader : Type}.
Context (FormFile : Request -> string -> option File).
Context (ReadAll : File -> option string).
Context (NewReader : string -> option (list ZipFile)).
Context (Name : ZipFile -> string).
Context (Open : ZipFile -> option Reader).
Context (Load : Reader -> option (value float)).

Local Abbreviation upload :=
  (uploadHandler float fmtFloat File ZipFile Reader FormFile ReadAll NewReader
     Name Open Load).

(** X13. When every step of the upload succeeds, the page sent is a fixed
    head, the markup the encoder gives for the unpickled tree under the
    prefix [root], and a fixed tail: the head opens the form that posts to
    [/save] and does not close it, the tail holds the submit button and
    closes the form.  The fields of the encoder lie inside that form. *)
Theorem edit_page_wraps_the_form (r : Request) (file : File)
    (fileBytes : string) (zipReader : list ZipFile) (logFile : ZipFile)
    (logFileReader : Reader) (data : value float)
    (Hmethod : Method r = MethodPost)
    (Hfile : FormFile r "savefile" = Some file)
    (Hread : ReadAll file = Some fileBytes)
    (Hzip : NewReader fileBytes = Some zipReader)
    (Hfind : find (fun f => Name f =? "log") zipReader = Some logFile)
    (Hopen : Open logFile = Some logFileReader)
    (Hload : Load logFileReader = Some data) :
  exists head tail,
    bodyOf (upload r) = head ++ renderEditableForm fmtFloat data "root" ++ tail
    /\ contains ("<form action=" ++ quoted "/save" ++ " method=" ++
                 quoted "post" ++ ">") head = true
    /\ contains "</form>" head = false
    /\ contains ("<input type=" ++ quoted "submit") tail = true
    /\ contains "</form>" tail = true
    /\ headerOf "Content-Type" (upload r) = Some "text/html; charset=utf-8".
Proof.
  exists (nl ++
          line 2 "<!DOCTYPE html>" ++
          line 2 "<html>" ++
          line 2 "<head>" ++
          line 3 "<title>Ren'Py Save Editor</title>" ++
          line 2 "</head>" ++
          line 2 "<body>" ++
          line 3 "<h2>Edit Save File Data</h2>" ++
          line 3 ("<form action=" ++ quoted "/save" ++ " method=" ++
                  quoted "post" ++ ">") ++
          tabs 4).
  exists (nl ++
          line 4 "<br>" ++
          line 4 ("<input type=" ++ quoted "submit" ++ " value=" ++
                  quoted "Save Changes" ++ ">") ++
          line 3 "</form>" ++
          line 2 "</body>" ++
          line 2 "</html>" ++
          tabs 1).
  split; [|repeat split; try (vm_compute; reflexivity)].
  - unfold uploadHandler.
    rewrite (method_post r Hmethod), Hfile, Hread, Hzip, Hfind, Hopen, Hload.
    change (bodyOf _)
      with (editPage (renderEditableForm fmtFloat data "root") ++ "").
    rewrite append_nil_r.
    unfold editPage. unfold line at 9.
    rewrite !append_assoc. reflexivity.
  - unfold uploadHandler.
    rewrite (method_post r Hmethod), Hfile, Hread, Hzip, Hfind, Hopen, Hload.
    reflexivity.
Qed.

End EditPage.

(** ** The save handler: the log *)

Lemma string_leb_trans (a b c : string) :
  String.leb a b = true -> String.leb b c = true -> String.leb a c = true.
Proof.
  unfold String.leb. revert b c.
  induction a as [|x a IH]; intros [|y b] [|z c]; cbn; try easy.
  unfold Ascii.compare.
  destruct (N.compare_spec (N_of_ascii x) (N_of_ascii y)) as [E1|L1|G1];
    destruct (N.compare_spec (N_of_ascii y) (N_of_ascii z)) as [E2|L2|G2];
    destruct (N.compare_spec (N_of_ascii x) (N_of_ascii z)) as [E3|L3|G3];
    try easy; try lia.
  apply IH.
Qed.

Lemma sorted_strings_unique (l l' : list string) :
  StronglySorted (fun a b => String.leb a b = true) l ->
  StronglySorted (fun a b => String.leb a b = true) l' ->
  Permutation l l' -> l = l'.
Proof.
  intros Hl. revert l'.
  induction Hl as [|x l Hl IH Hx]; intros l' Hl' Hperm.
  - apply Permutation_nil in Hperm. now subst.
  - destruct Hl' as [|y l' Hl' Hy].
    + apply Permutation_sym, Permutation_nil in Hperm. discriminate.
    + assert (x = y) as <-.
      { assert (In x (y :: l')) as [->|Hin]
          by (apply (Permutation_in _ Hperm); now left); [reflexivity|].
        assert (In y (x :: l)) as [->|Hin']
          by (apply (Permutation_in _ (Permutation_sym Hperm)); now left);
          [reflexivity|].
        rewrite Forall_forall in Hx, Hy.
        apply String.leb_antisym; auto. }
      f_equal. apply IH; [exact Hl'|].
      now apply Permutation_cons_inv in Hperm.
Qed.

Lemma sortStrings_StronglySorted (l : list string) :
  StronglySorted (fun a b => String.leb a b = true) (sortStrings l).
Proof.
  apply Sorted_StronglySorted.
  - intros a b c. apply string_leb_trans.
  - apply StringSort.Sorted_sort.
Qed.

Lemma sortStrings_Permutation (l l' : list string) :
  Permutation l l' -> sortStrings l = sortStrings l'.
Proof.
  intros H. apply sorted_strings_unique; try apply sortStrings_StronglySorted.
  apply Permutation_trans with l;
    [apply Permutation_sym, StringSort.Permuted_sort|].
  apply Permutation_trans with l'; [exact H | apply StringSort.Permuted_sort].
Qed.

Lemma valuesOf_In (m : list (string * list string)) (key : string)
    (values : list string) :
  NoDup (map fst m) -> In (key, values) m -> valuesOf m key = values.
Proof.
  induction m as [|[k vs] m IH]; intros Hnd Hin; [destruct Hin|].
  cbn [map fst] in Hnd. inversion Hnd as [|? ? Hk Hnd']; subst.
  cbn [valuesOf]. destruct Hin as [E|Hin].
  - injection E as -> ->. now rewrite String.eqb_refl.
  - destruct (String.eqb_spec k key) as [->|_]; [|auto].
    exfalso. apply Hk. apply in_map_iff. now exists (key, values).
Qed.

Section SaveLog.

Context (ParseForm ParseForm' : Request -> option (list (string * list string))).

(** X10. The save handler sorts the keys before it prints them, so what it
    prints and answers does not depend on the order in which [range]
    visits the submitted fields: two runs that receive the same form,
    visited in two orders, have the same effects. *)
Theorem save_log_does_not_depend_on_order (r : Request)
    (postForm postForm' : list (string * list string))
    (Hparse : ParseForm r = Some postForm)
    (Hparse' : ParseForm' r = Some postForm')
    (Hsame : Permutation postForm postForm')
    (Hkeys : NoDup (map fst postForm)) :
  saveHandler ParseForm r = saveHandler ParseForm' r.
Proof.
  unfold saveHandler. rewrite Hparse, Hparse'.
  destruct (negb (Method r =? MethodPost)); [reflexivity|].
  rewrite !keys_loop, !app_nil_l.
  rewrite (sortStrings_Permutation _ _ (Permutation_map fst Hsame)).
  do 2 f_equal. apply map_ext_in. intros key Hkey.
  assert (In key (map fst postForm')) as Hin.
  { apply (Permutation_in _ (Permutation_sym (StringSort.Permuted_sort _))).
    exact Hkey. }
  apply in_map_iff in Hin as [[k values] [<- Hin]]. cbn [fst].
  assert (NoDup (map fst postForm')) as Hkeys'
    by (apply (Permutation_NoDup (Permutation_map fst Hsame)), Hkeys).
  rewrite (valuesOf_In postForm' k values Hkeys' Hin).
  rewrite (valuesOf_In postForm k values Hkeys
             (Permutation_in _ (Permutation_sym Hsame) Hin)).
  reflexivity.
Qed.

(** X11. Every submitted field is printed: for each key of the form, the
    log of a POST holds the line of that key with the values submitted
    under it, all of them and in their order. *)
Theorem every_field_is_logged (r : Request)
    (postForm : list (string * list string)) (key : string)
    (values : list string)
    (Hmethod : Method r = MethodPost)
    (Hparse : ParseForm r = Some postForm)
    (Hkeys : NoDup (map fst postForm))
    (Hfield : In (key, values) postForm) :
  In (Stdout (logLine key values)) (saveHandler ParseForm r)
  /\ contains (logLine key values) (stdoutOf (saveHandler ParseForm r)) = true.
Proof.
  assert (Hin : In (Stdout (logLine key values)) (saveHandler ParseForm r)).
  { unfold saveHandler.
    rewrite (method_post r Hmethod), Hparse, keys_loop, app_nil_l. right. apply in_or_app. left.
    apply in_map_iff. exists key. split.
    - now rewrite (valuesOf_In postForm key values Hkeys Hfield).
    - apply (Permutation_in _ (StringSort.Permuted_sort _)).
      apply in_map_iff. now exists (key, values). }
  split; [exact Hin|].
  induction (saveHandler ParseForm r) as [|e trace IH]; [destruct Hin|].
  destruct Hin as [->|Hin].
  - cbn [stdoutOf]. apply contains_append_l, contains_refl.
  - specialize (IH Hin). destruct e; cbn [stdoutOf]; auto.
    now apply contains_append_r.
Qed.

End SaveLog.

(** ** The further properties on concrete inputs *)

Lemma upload_handler_statuses_witness :
  Method postUpload = MethodPost
  /\ statusOf (exUpload postUpload) = StatusOK
  /\ bodyOf (exUpload postUpload)
     = editPage (renderEditableForm fmtWhole scenario "root").
Proof.
  split; [reflexivity|].
  exact (upload_handler_statuses fmtWhole exFormFile exReadAll exNewReader fst
           exOpen exLoad postUpload eq_refl).
Defined.

Lemma upload_closes_what_it_opens_witness :
  Method postUpload = MethodPost
  /\ exFormFile postUpload "savefile" = Some "archive"
  /\ callsOf (exUpload postUpload) =
     [ CFormFile "savefile"; CReadAll; CNewReader; COpen "log"; CLoad;
       CCloseReader; CCloseFile ].
Proof.
  split; [reflexivity|]. split; [reflexivity|].
  exact (proj2 (upload_closes_what_it_opens fmtWhole exFormFile exReadAll
                  exNewReader fst exOpen exLoad postUpload "archive"
                  eq_refl eq_refl)
           "archive" _ ("log", "pickle") "pickle"
           eq_refl eq_refl eq_refl eq_refl).
Defined.

Lemma server_reads_upload_only_on_post_witness :
  In CReadAll (callsOf (exServe postUpload))
  /\ Method postUpload = MethodPost /\ URLPath postUpload = "/upload".
Proof.
  assert (H : In CReadAll (callsOf (exServe postUpload)))
    by (right; left; reflexivity).
  split; [exact H|].
  exact (server_reads_upload_only_on_post fmtWhole exFormFile exReadAll
           exNewReader fst exOpen exLoad exParseForm exRedirection
           postUpload CReadAll H).
Defined.

Lemma every_leaf_is_rendered_witness :
  In ("root.flags[1]", SBool false) (leaves fmtWhole scenario "root")
  /\ contains (renderEditableForm fmtWhole (VScalar (SBool false)) "root.flags[1]")
       (renderEditableForm fmtWhole scenario "root") = true.
Proof.
  assert (H : In ("root.flags[1]", @SBool Z false)
                (leaves fmtWhole scenario "root"))
    by (right; right; left; reflexivity).
  split; [exact H|].
  exact (every_leaf_is_rendered fmtWhole scenario "root" _ _ H).
Defined.

Lemma editable_leaf_is_a_field_witness :
  In ("root.gold", SInt KInt 100) (leaves fmtWhole scenario "root")
  /\ contains ("name=" ++ quoted "root.gold")
       (renderEditableForm fmtWhole scenario "root") = true.
Proof.
  assert (H : In ("root.gold", @SInt Z KInt 100)
                (leaves fmtWhole scenario "root"))
    by (left; reflexivity).
  split; [exact H|].
  exact (editable_leaf_is_a_field fmtWhole scenario "root" _ _ H eq_refl).
Defined.

Lemma leaf_paths_extend_prefix_witness :
  In "root.flags[0]" (leafPaths fmtWhole scenario "root")
  /\ String.prefix "root" "root.flags[0]" = true.
Proof.
  assert (H : In "root.flags[0]" (leafPaths fmtWhole scenario "root"))
    by (right; left; reflexivity).
  split; [exact H|].
  exact (proj1 (leaf_paths_extend_prefix fmtWhole scenario "root" _ H)).
Defined.

Lemma leaves_do_not_depend_on_order_witness :
  reordered (VMap twoEntries) (VMap twoEntriesSwapped)
  /\ Permutation (leafPaths fmtWhole (VMap twoEntries) "root")
       (leafPaths fmtWhole (VMap twoEntriesSwapped) "root").
Proof.
  assert (H : reordered (VMap twoEntries) (VMap twoEntriesSwapped)).
  { apply (reordered_map twoEntries twoEntries twoEntriesSwapped).
    - repeat constructor.
    - apply perm_swap. }
  split; [exact H|].
  exact (proj2 (leaves_do_not_depend_on_order fmtWhole _ _ H "root")).
Defined.

Lemma exParseForm_keys_distinct :
  NoDup (map fst [ ("root.gold", ["150"]);
                   ("root.flags[1]", ["false"]);
                   ("root.flags[0]", ["false"; "true"]) ]).
Proof.
  apply distinct_NoDup. reflexivity.
Qed.

Lemma save_log_does_not_depend_on_order_witness :
  saveHandler exParseForm postSave = saveHandler exParseFormSwapped postSave.
Proof.
  apply (save_log_does_not_depend_on_order exParseForm exParseFormSwapped
           postSave _ _ eq_refl eq_refl).
  - apply Permutation_sym.
    apply perm_trans with
      [ ("root.gold", ["150"]); ("root.flags[0]", ["false"; "true"]);
        ("root.flags[1]", ["false"]) ];
      [apply perm_swap | apply perm_skip, perm_swap].
  - exact exParseForm_keys_distinct.
Defined.

Lemma every_field_is_logged_witness :
  contains ("  root.flags[0]: [false true]" ++ nl)
    (stdoutOf (saveHandler exParseForm postSave)) = true.
Proof.
  exact (proj2 (every_field_is_logged exParseForm postSave _
                  "root.flags[0]" ["false"; "true"] eq_refl eq_refl
                  exParseForm_keys_distinct
                  (or_intror (or_intror (or_introl eq_refl))))).
Defined.

Lemma markup_is_well_tagged_witness :
  (forall k f, plain (fmtWhole k f) = true)
  /\ wellTagged (renderEditableForm fmtWhole hostile "<script>") = true.
Proof.
  assert (H : forall k f, plain (fmtWhole k f) = true)
    by (intros k f; apply fmtZ_plain).
  split; [exact H|].
  exact (markup_is_well_tagged fmtWhole H hostile "<script>").
Defined.

Lemma edit_page_wraps_the_form_witness :
  exists head tail,
    bodyOf (exUpload postUpload)
    = head ++ renderEditableForm fmtWhole scenario "root" ++ tail
    /\ contains "</form>" head = false
    /\ contains "</form>" tail = true.
Proof.
  destruct (edit_page_wraps_the_form fmtWhole exFormFile exReadAll exNewReader
              fst exOpen exLoad postUpload "archive" "archive"
              [ ("screenshot.png", "image"); ("log", "pickle") ]
              ("log", "pickle") "pickle" scenario
              eq_refl eq_refl eq_refl eq_refl eq_refl eq_refl eq_refl)
    as (head & tail & Hbody & _ & Hhead & _ & Htail & _).
  exists head, tail. repeat split; assumption.
Defined.

(** ** Error answers *)

Section ErrorAnswers.

Context {float : Type} (fmtFloat : FloatKind -> float -> string).
Context {File ZipFile Reader : Type}.
Context (FormFile : Request -> string -> option File).
Context (ReadAll : File -> option string).
Context (NewReader : string -> option (list ZipFile)).
Context (Name : ZipFile -> string).
Context (Open : ZipFile -> option Reader).
Context (Load : Reader -> option (value float)).
Context (ParseForm : Request -> option (list (string * list string))).
Context (redirection : Redirection).

Local Abbreviation upload :=
  (uploadHandler float fmtFloat File ZipFile Reader FormFile ReadAll NewReader
     Name Open Load).
Local Abbreviation server :=
  (serve float fmtFloat File ZipFile Reader FormFile ReadAll NewReader
     Name Open Load ParseForm redirection).






End ErrorAnswers.

